(** * MediaFinder: the classification-and-linking engine of organize_files.py

    A shallow embedding of [src/organize_files.py]: the extension classifier
    ([get_file_category]), the exclusion policy ([should_exclude_directory]),
    the tree scanner ([scan_for_files]), the link planner
    ([create_hybrid_structure]) and the link materializer
    ([create_symbolic_links]), with the properties of the specification
    stated and settled against them.

    Modelling conventions.
    - Python [str] is [string]; [str.lower] acts on the ASCII letters (other
      characters are left as they are).
    - A [pathlib.Path] is the parsed triple drive / root / name components.
    - The filesystem seen by the planner and the materializer is a finite map
      from paths to nodes; paths are compared lexically (no [..] collapsing
      and no aliasing through symbolic links to directories).
    - Python exceptions are values of [exn]; a computation that may raise
      threads the filesystem and returns [exn + A].
    - [path_exists] is the answer of [Path.exists()] where [stat] fails, if
      at all, with an error that means that nothing is there. The functions
      over a [Policy] are the planner and the materializer in that case.
      [Path_exists] and the functions over an [Env] also cover an
      existence check that raises (access denied above the path, a name
      that is too long); without such a fault they are the functions over
      a [Policy] ([create_symbolic_links_env_quiet]).
    - Console output is not modelled: the calls of [print] are taken to
      return. What the materializer prints for a file is kept as the entry
      of that file in the trace of the run. *)

From Stdlib Require Import ZArith Ascii.
From Stdlib Require Import DecimalString DecimalNat.
From stdpp Require Import base decidable option list strings gmap fin_maps.

(** ** Python strings *)

Module PyStr.

Definition lower_char (c : ascii) : ascii :=
    let n := N_of_ascii c in
    if ((65 <=? n) && (n <=? 90))%N then ascii_of_N (n + 32) else c.

  (** [s.lower()] *)
Fixpoint lower (s : string) : string :=
    match s with
    | EmptyString => EmptyString
    | String c s' => String (lower_char c) (lower s')
    end.

  (** [s.rfind(c)]: index of the last occurrence of [c], [-1] when absent. *)
Fixpoint rfind (c : ascii) (s : string) : Z :=
    match s with
    | EmptyString => (-1)%Z
    | String a s' =>
        let r := rfind c s' in
        if (0 <=? r)%Z then (r + 1)%Z
        else if Ascii.eqb a c then 0%Z else (-1)%Z
    end.

  (** [s[n:]] and [s[:n]] for [0 <= n]. *)
Fixpoint drop (n : nat) (s : string) : string :=
    match n, s with
    | O, _ => s
    | S _, EmptyString => EmptyString
    | S n', String _ s' => drop n' s'
    end.

Fixpoint take (n : nat) (s : string) : string :=
    match n, s with
    | O, _ => EmptyString
    | S _, EmptyString => EmptyString
    | S n', String a s' => String a (take n' s')
    end.

  (** [s.startswith(p)] *)
Definition startswith (p s : string) : bool := String.prefix p s.

  (** [s.replace(c, '')] for a one-character [c]. *)
Fixpoint remove_char (c : ascii) (s : string) : string :=
    match s with
    | EmptyString => EmptyString
    | String a s' =>
        if Ascii.eqb a c then remove_char c s' else String a (remove_char c s')
    end.

  (** [str(n)] for a non-negative integer. *)
Definition str_of_nat (n : nat) : string :=
    NilEmpty.string_of_uint (Nat.to_uint n).

End PyStr.

(** ** pathlib *)

Record Path := mkPath { drive : string; root : string; names : list string }.

Global Instance Path_eq_dec : EqDecision Path.
Proof. solve_decision. Defined.

Global Instance Path_countable : Countable Path.
Proof.
  refine (inj_countable'
            (fun p => (drive p, root p, names p))
            (fun t => mkPath t.1.1 t.1.2 t.2) _).
  by intros [].
Defined.

Module pathlib.

Definition anchor (p : Path) : string := drive p +:+ root p.

  (** [p.parts] *)
Definition parts (p : Path) : list string :=
    if decide (anchor p = "") then names p else anchor p :: names p.

  (** [p.name]: the final component, [''] for a bare anchor. *)
Definition name (p : Path) : string := default "" (last (names p)).

  (** [p.parent]: a path without components is its own parent. *)
Definition parent (p : Path) : Path :=
    mkPath (drive p) (root p) (removelast (names p)).

  (** [p / seg] for a segment that is a single relative component; joining
      the empty string leaves the path as it is. *)
Definition joinpath (p : Path) (seg : string) : Path :=
    if decide (seg = "") then p
    else mkPath (drive p) (root p) (names p ++ [seg]).

Definition is_absolute (p : Path) : bool := bool_decide (root p ≠ "").

  (** The suffix and the stem of a file name, by the position [i] of its
      last dot: [0 < i < len(name) - 1]. *)
Definition has_suffix (nm : string) : bool :=
    let i := PyStr.rfind "."%char nm in
    ((0 <? i) && (i <? Z.of_nat (String.length nm) - 1))%Z.

Definition suffix_of (nm : string) : string :=
    if has_suffix nm then PyStr.drop (Z.to_nat (PyStr.rfind "."%char nm)) nm
    else "".

Definition stem_of (nm : string) : string :=
    if has_suffix nm then PyStr.take (Z.to_nat (PyStr.rfind "."%char nm)) nm
    else nm.

  (** [p.suffix] and [p.stem] *)
Definition suffix (p : Path) : string := suffix_of (name p).
Definition stem (p : Path) : string := stem_of (name p).

End pathlib.

Infix "/:" := pathlib.joinpath (at level 40, left associativity).

(** ** Static configuration *)

Definition FILE_CATEGORIES : list (string * list string) :=
  [ ("pictures", [".jpg"; ".jpeg"; ".png"; ".gif"; ".bmp"; ".webp"; ".svg";
                  ".tiff"; ".tif"; ".ico"; ".heic"; ".raw"]);
    ("audio",    [".mp3"; ".wav"; ".flac"; ".m4a"; ".aac"; ".ogg"; ".wma";
                  ".opus"; ".ape"; ".alac"]);
    ("video",    [".mp4"; ".avi"; ".mkv"; ".mov"; ".wmv"; ".flv"; ".webm";
                  ".m4v"; ".mpg"; ".mpeg"; ".3gp"]);
    ("text",     [".txt"; ".pdf"; ".doc"; ".docx"; ".rtf"; ".odt"; ".md";
                  ".epub"; ".mobi"]) ].

Definition EXCLUDED_DIRS : list string :=
  [ "windows"; "program files"; "program files (x86)"; "programdata";
    "$recycle.bin"; "system volume information"; "$windows.~bt";
    "$windows.~ws"; "recovery"; "boot"; "msocache"; "perflogs";
    "appdata"; "temp"; "tmp"; "cache"; "caches";
    "node_modules"; "venv"; "__pycache__"; ".venv"; "env";
    "build"; "dist"; ".next"; ".nuxt"; "target";
    ".git"; ".svn"; ".hg";
    ".cache"; ".config"; ".vscode"; ".idea" ].

(** ** Category classifier *)

(** The loop of [get_file_category] over the items of the table. *)
Fixpoint lookup_category (extension : string)
    (table : list (string * list string)) : option string :=
  match table with
  | [] => None
  | (category, extensions) :: rest =>
      if bool_decide (extension ∈ extensions) then Some category
      else lookup_category extension rest
  end.

Definition get_file_category (file_path : Path) : option string :=
  let extension := PyStr.lower (pathlib.suffix file_path) in
  lookup_category extension FILE_CATEGORIES.

(** The extension as the specification words it: the substring from the last
    dot, inclusive; none for a name without a dot or whose only dot leads. *)
Definition spec_extension (nm : string) : string :=
  let i := PyStr.rfind "."%char nm in
  if (i <=? 0)%Z then "" else PyStr.drop (Z.to_nat i) nm.

Definition spec_classify (nm : string) : option string :=
  lookup_category (PyStr.lower (spec_extension nm)) FILE_CATEGORIES.

(** ** Exclusion policy *)

Definition should_exclude_directory (path : Path) : bool :=
  if PyStr.startswith "." (pathlib.name path) then true
  else
    let path_lower := PyStr.lower (pathlib.name path) in
    if bool_decide (path_lower ∈ EXCLUDED_DIRS) then true
    else
      let parts_lower := PyStr.lower <$> pathlib.parts path in
      existsb (fun excluded => bool_decide (excluded ∈ parts_lower))
              EXCLUDED_DIRS.

(** The components above the leaf. *)
Definition ancestor_components (path : Path) : list string :=
  removelast (pathlib.parts path).

(** ** Exceptions *)

(** The exception classes the handlers of the program tell apart.
    [FileNotFoundError] and [OSError] stand for every [OSError] other than
    [FileExistsError]; [Exception] for any other exception. *)
Inductive exn := FileExistsError | FileNotFoundError | OSError | Exception.

Global Instance exn_eq_dec : EqDecision exn.
Proof. solve_decision. Defined.

Definition is_OSError (e : exn) : bool :=
  match e with Exception => false | _ => true end.

(** ** Filesystem *)

Inductive node := Directory | RegularFile | SymLink (dest : Path).

Global Instance node_eq_dec : EqDecision node.
Proof. solve_decision. Defined.

(** What the operating system refuses although the path is free and its
    parent is a directory (permission denied, missing privilege, read-only or
    unsupported filesystem, path too long). *)
Record Policy := mkPolicy {
  mkdir_refused : Path → bool;
  symlink_refused : Path → bool
}.

(** Computations over the filesystem that may raise. *)
Definition M (A : Type) : Type :=
  gmap Path node → gmap Path node * (exn + A).

Definition ret {A} (a : A) : M A := fun fs => (fs, inr a).
Definition raise {A} (e : exn) : M A := fun fs => (fs, inl e).
Definition bind {A B} (m : M A) (k : A → M B) : M B :=
  fun fs =>
    match m fs with
    | (fs', inr a) => k a fs'
    | (fs', inl e) => (fs', inl e)
    end.

Notation "x <- c1 ;; c2" := (bind c1 (fun x => c2))
  (at level 100, c1 at next level, right associativity).
Notation "c1 ;;; c2" := (bind c1 (fun _ => c2))
  (at level 100, right associativity).

(** Where following the link at [link] with text [dest] leads: a relative
    text is read from the directory of the link. *)
Definition link_dest (link dest : Path) : Path :=
  if decide (pathlib.anchor dest = "") then
    mkPath (drive link) (root link) (removelast (names link) ++ names dest)
  else dest.

(** [os.stat]: follows symbolic links, at most 40 in a row. *)
Fixpoint stat_aux (fuel : nat) (fs : gmap Path node) (p : Path)
    : option node :=
  match fs !! p with
  | Some (SymLink d) =>
      match fuel with
      | O => None
      | S fuel' => stat_aux fuel' fs (link_dest p d)
      end
  | o => o
  end.

Definition stat (fs : gmap Path node) (p : Path) : option node :=
  stat_aux 40 fs p.

(** [p.exists()], [p.is_dir()] and [os.path.lexists(p)], where [stat] does
    not fail with an error other than the ones that mean that nothing is
    there ([Path_exists] has the other case). *)
Definition path_exists (fs : gmap Path node) (p : Path) : bool :=
  bool_decide (is_Some (stat fs p)).

Definition is_dir (fs : gmap Path node) (p : Path) : bool :=
  bool_decide (stat fs p = Some Directory).

Definition lexists (fs : gmap Path node) (p : Path) : bool :=
  bool_decide (is_Some (fs !! p)).

Global Arguments stat : simpl never.
Global Arguments path_exists : simpl never.
Global Arguments is_dir : simpl never.
Global Arguments lexists : simpl never.

Section Filesystem.

Context (os : Policy).

  (** [os.mkdir(d)] *)
Definition os_mkdir (d : Path) : M unit := fun fs =>
    match fs !! d with
    | Some _ => (fs, inl FileExistsError)
    | None =>
        match names d with
        | [] => (fs, inl FileNotFoundError)
        | _ :: _ =>
            match stat fs (pathlib.parent d) with
            | None => (fs, inl FileNotFoundError)
            | Some Directory =>
                if mkdir_refused os d then (fs, inl OSError)
                else (<[d := Directory]> fs, inr ())
            | Some _ => (fs, inl OSError)
            end
        end
    end.

  (** The [except OSError] clause of [Path.mkdir] with [exist_ok=True]. *)
Definition mkdir_except_OSError (d : Path) (e : exn) : M unit := fun fs =>
    if is_OSError e && is_dir fs d then (fs, inr ()) else (fs, inl e).

  (** [d.mkdir(parents=False, exist_ok=True)] *)
Definition mkdir_exist_ok (d : Path) : M unit := fun fs =>
    match os_mkdir d fs with
    | (fs', inl FileNotFoundError) => (fs', inl FileNotFoundError)
    | (fs', inl e) => mkdir_except_OSError d e fs'
    | r => r
    end.

  (** [d.mkdir(parents=True, exist_ok=True)], by recursion on the
      components of [d] from the leaf upwards. *)
Fixpoint mkdir_parents_rev (dr rt : string) (rnames : list string)
      : M unit := fun fs =>
    let d := mkPath dr rt (rev rnames) in
    match os_mkdir d fs with
    | (fs', inl FileNotFoundError) =>
        match rnames with
        | [] => (fs', inl FileNotFoundError)
        | _ :: rparent =>
            (mkdir_parents_rev dr rt rparent ;;; mkdir_exist_ok d) fs'
        end
    | (fs', inl e) => mkdir_except_OSError d e fs'
    | r => r
    end.

Definition mkdir_parents (d : Path) : M unit :=
    mkdir_parents_rev (drive d) (root d) (rev (names d)).

  (** [os.symlink(src, dst)] *)
Definition os_symlink (src dst : Path) : M unit := fun fs =>
    match fs !! dst with
    | Some _ => (fs, inl FileExistsError)
    | None =>
        match stat fs (pathlib.parent dst) with
        | None => (fs, inl FileNotFoundError)
        | Some Directory =>
            if symlink_refused os dst then (fs, inl OSError)
            else (<[dst := SymLink src]> fs, inr ())
        | Some _ => (fs, inl OSError)
        end
    end.

  (** ** Link planner *)

  (** The [try] block that derives the namespace; none of its operations
      raises. *)
Definition try_parent_name (source_file : Path) : exn + string :=
    let parent_name := pathlib.name (pathlib.parent source_file) in
    if bool_decide (parent_name = "") || bool_decide (parent_name = "\")
       || bool_decide (parent_name = "/")
    then inr (PyStr.remove_char "\"%char
                (PyStr.remove_char ":"%char (drive source_file)))
    else inr parent_name.

Definition parent_name (source_file : Path) : string :=
    match try_parent_name source_file with
    | inr parent_name => parent_name
    | inl _ => "root"
    end.

  (** [f"{stem}_{counter}{suffix}"] and [target_dir / f"..."] *)
Definition numbered_name (source_file : Path) (counter : nat) : string :=
    pathlib.stem source_file +:+ "_" +:+ PyStr.str_of_nat counter
    +:+ pathlib.suffix source_file.

Definition numbered (target_dir source_file : Path) (counter : nat)
      : Path :=
    target_dir /: numbered_name source_file counter.

  (** The [while target_path.exists()] loop, at most [fuel] iterations. *)
Fixpoint while_exists (fuel : nat) (fs : gmap Path node)
      (target_dir source_file target_path : Path) (counter : nat)
      : option Path :=
    if path_exists fs target_path then
      match fuel with
      | O => None
      | S fuel' =>
          while_exists fuel' fs target_dir source_file
            (numbered target_dir source_file counter) (S counter)
      end
    else Some target_path.

  (** The loop run with one iteration more than the filesystem has entries,
      which always suffices ([while_exists_terminates]); the default is
      never taken. *)
Definition free_target (fs : gmap Path node)
      (target_dir source_file : Path) : Path :=
    let target_path := target_dir /: pathlib.name source_file in
    default target_path
      (while_exists (S (size fs)) fs target_dir source_file target_path 1).

  (** [base_output_dir / category / parent_name] *)
Definition target_dir_of (category : string)
      (source_file base_output_dir : Path) : Path :=
    base_output_dir /: category /: parent_name source_file.

Definition create_hybrid_structure (category : string)
      (source_file base_output_dir : Path) (dry_run : bool) : M Path :=
    let target_dir := target_dir_of category source_file base_output_dir in
    (if dry_run then ret () else mkdir_parents target_dir) ;;;
    (fun fs => (fs, inr (free_target fs target_dir source_file))).

  (** ** Link materializer *)

Inductive Outcome := Created | Skipped | Failed (reason : exn).

Record Stats := mkStats { created : nat; failed : nat; skipped : nat }.

Definition count (o : Outcome) (stats : Stats) : Stats :=
    match o with
    | Created => mkStats (S (created stats)) (failed stats) (skipped stats)
    | Failed _ => mkStats (created stats) (S (failed stats)) (skipped stats)
    | Skipped => mkStats (created stats) (failed stats) (S (skipped stats))
    end.

  (** The three [except] clauses of the loop body. *)
Definition handler (e : exn) : Outcome :=
    match e with
    | FileExistsError => Skipped
    | e => Failed e
    end.

  (** The [try] block of the loop body: the planned target and the link. *)
Definition try_link (category : string) (source_file output_dir : Path)
      (dry_run : bool) : M Path :=
    target_path <-
      create_hybrid_structure category source_file output_dir dry_run ;;
    if dry_run then ret target_path
    else os_symlink source_file target_path ;;; ret target_path.

  (** One trace entry per processed file: the source, the target the link
      was created at (or would be, in a dry run), and the outcome. *)
Record Entry := mkEntry {
    e_category : string;
    e_source : Path;
    e_target : option Path;
    e_outcome : Outcome
  }.

  (** One iteration of the inner loop. *)
Definition link_one (category : string) (source_file output_dir : Path)
      (dry_run : bool) (fs : gmap Path node) : gmap Path node * Entry :=
    match create_hybrid_structure category source_file output_dir dry_run fs
    with
    | (fs1, inl e) =>
        (fs1, mkEntry category source_file None (handler e))
    | (fs1, inr target_path) =>
        if dry_run then
          (fs1, mkEntry category source_file (Some target_path) Created)
        else
          match os_symlink source_file target_path fs1 with
          | (fs2, inr _) =>
              (fs2, mkEntry category source_file (Some target_path) Created)
          | (fs2, inl e) =>
              (fs2, mkEntry category source_file (Some target_path)
                      (handler e))
          end
    end.

  (** The state of a materialization pass: the filesystem, the counters and
      the trace of the files processed so far. *)
Record Run := mkRun {
    r_fs : gmap Path node;
    r_stats : Stats;
    r_log : list Entry
  }.

Definition step (output_dir : Path) (dry_run : bool) (category : string)
      (r : Run) (source_file : Path) : Run :=
    let '(fs', entry) :=
      link_one category source_file output_dir dry_run (r_fs r) in
    mkRun fs' (count (e_outcome entry) (r_stats r)) (r_log r ++ [entry]).

  (** [for source_file in files] *)
Definition link_files (output_dir : Path) (dry_run : bool)
      (category : string) (files : list Path) (r : Run) : Run :=
    foldl (step output_dir dry_run category) r files.

  (** [for category, files in files_by_category.items()] *)
Definition link_categories (output_dir : Path) (dry_run : bool)
      (files_by_category : list (string * list Path)) (r : Run) : Run :=
    foldl (fun r cf => link_files output_dir dry_run cf.1 cf.2 r)
          r files_by_category.

Definition create_symbolic_links
      (files_by_category : list (string * list Path)) (output_dir : Path)
      (dry_run : bool) (fs : gmap Path node) : Run :=
    link_categories output_dir dry_run files_by_category
      (mkRun fs (mkStats 0 0 0) []).

End Filesystem.

Definition total_files (files_by_category : list (string * list Path))
    : nat :=
  sum_list (map (fun cf => length cf.2) files_by_category).

(** ** Tree scanner *)

(** What [file_path.stat().st_file_attributes] does for a file: the attribute
    bits, an [OSError], or an [AttributeError] on a platform without the
    field. *)
Inductive stat_result :=
  | StAttributes (st_file_attributes : Z)
  | StOSError
  | StAttributeError.

(** A directory as [os.walk] sees it: its sub-directories and files, or a
    directory that cannot be listed (the error is ignored by [os.walk] and
    nothing is yielded for it). *)
#[warnings="-register-all"]
Inductive dirtree :=
  | Listing (dirs : list (string * dirtree))
            (files : list (string * stat_result))
  | Unreadable.

(** The progress observer: [Some e] when the call raises [e]. *)
Definition Callback : Type := nat → string → Path → option exn.

Record ScanState := mkScan {
  found_files : list (string * list Path);
  scanned_count : nat;
  skipped_count : nat
}.

(** [found_files[category].append(file_path)] on a [defaultdict(list)];
    a new key goes last. *)
Fixpoint append_found (category : string) (file_path : Path)
    (found : list (string * list Path)) : list (string * list Path) :=
  match found with
  | [] => [(category, [file_path])]
  | (c, files) :: rest =>
      if decide (c = category) then (c, files ++ [file_path]) :: rest
      else (c, files) :: append_found category file_path rest
  end.

(** The guarded test [st_file_attributes & 0x4]: a failing [stat] passes. *)
Definition is_system_file (s : stat_result) : bool :=
  match s with
  | StAttributes a => negb (Z.land a 4 =? 0)%Z
  | StOSError | StAttributeError => false
  end.

Section Scanner.

Context (progress_callback : option Callback).

  (** The body of [for file in files]. *)
Definition scan_file (root_path : Path) (file : string * stat_result)
      (st : ScanState) : ScanState * (exn + unit) :=
    let file_path := root_path /: file.1 in
    if is_system_file file.2 then
      (mkScan (found_files st) (scanned_count st) (S (skipped_count st)),
       inr ())
    else
      match get_file_category file_path with
      | Some category =>
          let st' :=
            mkScan (append_found category file_path (found_files st))
                   (S (scanned_count st)) (skipped_count st) in
          match progress_callback with
          | Some callback =>
              if (scanned_count st' mod 100 =? 0)%nat then
                match callback (scanned_count st') category file_path with
                | Some e => (st', inl e)
                | None => (st', inr ())
                end
              else (st', inr ())
          | None => (st', inr ())
          end
      | None => (st, inr ())
      end.

Fixpoint scan_files (root_path : Path) (files : list (string * stat_result))
      (st : ScanState) : ScanState * (exn + unit) :=
    match files with
    | [] => (st, inr ())
    | file :: rest =>
        match scan_file root_path file st with
        | (st', inr _) => scan_files root_path rest st'
        | (st', inl e) => (st', inl e)
        end
    end.

  (** The sub-directories of a directory, in order, pruned as the
      assignment to [dirs[:]] prunes them; [walk_sub] walks one of them. *)
Definition walk_dirs
      (walk_sub : Path → dirtree → ScanState → ScanState * (exn + unit))
      (root_path : Path)
      : list (string * dirtree) → ScanState → ScanState * (exn + unit) :=
    fix go (ds : list (string * dirtree)) (st : ScanState) :=
      match ds with
      | [] => (st, inr ())
      | (d, sub) :: ds' =>
          if should_exclude_directory (root_path /: d) then go ds' st
          else
            match walk_sub (root_path /: d) sub st with
            | (st', inr _) => go ds' st'
            | (st', inl e) => (st', inl e)
            end
      end.

  (** The body of [for root, dirs, files in os.walk(drive)], top-down: the
      files of a directory, then its sub-directories that survive the
      pruning of [dirs], in order. *)
Fixpoint walk (root_path : Path) (t : dirtree) (st : ScanState)
      : ScanState * (exn + unit) :=
    match t with
    | Unreadable => (st, inr ())
    | Listing dirs files =>
        match scan_files root_path files st with
        | (st1, inl e) => (st1, inl e)
        | (st1, inr _) => walk_dirs walk root_path dirs st1
        end
    end.

  (** [for drive in drives]: both handlers print and [continue]. *)
Fixpoint scan_drives (drives : list (Path * dirtree)) (st : ScanState)
      : ScanState :=
    match drives with
    | [] => st
    | (drive, t) :: rest => scan_drives rest (walk drive t st).1
    end.

Definition scan_for_files (drives : list (Path * dirtree))
      : list (string * list Path) :=
    found_files (scan_drives drives (mkScan [] 0 0)).

End Scanner.

(** A file of the tree that the walk reaches: every directory above it can
    be listed and none is pruned. *)
Inductive reachable : Path → dirtree → Path → stat_result → Prop :=
  | reach_file root_path dirs files f s :
      (f, s) ∈ files →
      reachable root_path (Listing dirs files) (root_path /: f) s
  | reach_dir root_path dirs files d sub p s :
      (d, sub) ∈ dirs →
      should_exclude_directory (root_path /: d) = false →
      reachable (root_path /: d) sub p s →
      reachable root_path (Listing dirs files) p s.

(** Every file path of a tree, pruned or not. *)
Inductive file_of : Path → dirtree → Path → Prop :=
  | file_here root_path dirs files f s :
      (f, s) ∈ files →
      file_of root_path (Listing dirs files) (root_path /: f)
  | file_below root_path dirs files d sub p :
      (d, sub) ∈ dirs →
      file_of (root_path /: d) sub p →
      file_of root_path (Listing dirs files) p.

(** [file_path] is listed under [category] in an inventory. *)
Definition inventoried (inventory : list (string * list Path))
    (category : string) (file_path : Path) : Prop :=
  ∃ files, (category, files) ∈ inventory ∧ file_path ∈ files.

(** ** Auxiliary notions used by the statements *)

(** The contract shared by the ways of making a directory: the filesystem
    only grows, on success the directory is there, and a directory that is
    already there is left alone. *)
Definition mkdir_contract (d : Path) (m : M unit) : Prop :=
  ∀ fs fs' r, m fs = (fs', r) →
    fs ⊆ fs'
    ∧ (r = inr () → is_dir fs' d = true)
    ∧ (is_dir fs d = true → r = inr () ∧ fs' = fs).

(** The files of an inventory in the order the two loops visit them, and
    the pass written as one loop over them. *)
Definition jobs (files_by_category : list (string * list Path))
    : list (string * Path) :=
  files_by_category ≫= (fun cf => pair cf.1 <$> cf.2).

Definition run_jobs (os : Policy) (output_dir : Path) (dry_run : bool)
    (js : list (string * Path)) (r : Run) : Run :=
  foldl (fun r job => step os output_dir dry_run job.1 r job.2) r js.

(** The number of files a pass has counted. *)
Definition handled (stats : Stats) : nat :=
  created stats + failed stats + skipped stats.

(** The targets of the entries with outcome [Created]. *)
Definition created_targets (log : list Entry) : list Path :=
  omap (fun entry =>
          match e_outcome entry with
          | Created => e_target entry
          | _ => None
          end) log.

(** No two entries of a trace have the same planned target. *)
Definition targets_distinct (log : list Entry) : Prop :=
  ∀ i j entry1 entry2 target,
    i ≠ j → log !! i = Some entry1 → log !! j = Some entry2 →
    e_target entry1 = Some target → e_target entry2 ≠ Some target.

(** The progress observer, if there is one, raises on no call for
    [file_path]. *)
Definition callback_quiet (progress_callback : option Callback)
    (file_path : Path) : Prop :=
  ∀ callback, progress_callback = Some callback →
    ∀ n category, callback n category file_path = None.

(** What the walk of a tree keeps, and what it finds when the observer
    raises on none of the tree's files. *)
Definition walk_keeps (progress_callback : option Callback) (t : dirtree)
    : Prop :=
  ∀ root_path st c p,
    inventoried (found_files st) c p →
    inventoried (found_files (walk progress_callback root_path t st).1) c p.

Definition walk_finds (progress_callback : option Callback) (t : dirtree)
    : Prop :=
  ∀ root_path st,
    (∀ q, file_of root_path t q → callback_quiet progress_callback q) →
    (walk progress_callback root_path t st).2 = inr ()
    ∧ ∀ p s c, reachable root_path t p s → is_system_file s = false →
        get_file_category p = Some c →
        inventoried (found_files (walk progress_callback root_path t st).1)
                    c p.

(** ** Drives *)

(** [s.endswith(suffix)] *)
Definition endswith (suffix s : string) : bool :=
  (String.length suffix <=? String.length s)%nat
  && String.eqb
       (PyStr.drop (String.length s - String.length suffix) s) suffix.

(** [string.ascii_uppercase], letter by letter. *)
Definition ascii_uppercase : list string :=
  [ "A"; "B"; "C"; "D"; "E"; "F"; "G"; "H"; "I"; "J"; "K"; "L"; "M";
    "N"; "O"; "P"; "Q"; "R"; "S"; "T"; "U"; "V"; "W"; "X"; "Y"; "Z" ].

(** [f"{letter}:\\"] *)
Definition drive_of_letter (letter : string) : string := letter +:+ ":\".

(** [get_all_drives], over what [os.path.exists] answers for a drive. *)
Definition get_all_drives (os_path_exists : string → bool) : list string :=
  filter (fun drive => os_path_exists drive = true)
         (drive_of_letter <$> ascii_uppercase).

(** The comprehension of [main] over [args.drives]. *)
Definition normalize_drive (d : string) : string :=
  if endswith ":\" d then d else d +:+ ":\".

Definition normalize_drives (drives : list string) : list string :=
  normalize_drive <$> drives.

(** What a call of the progress observer does, when there is none too. *)
Definition call_result (progress_callback : option Callback) (n : nat)
    (category : string) (file_path : Path) : option exn :=
  match progress_callback with
  | Some callback => callback n category file_path
  | None => None
  end.

(** The shape of a [defaultdict(list)] that is only ever appended to: no
    key twice, no empty list. *)
Definition well_formed_inventory (inventory : list (string * list Path))
    : Prop :=
  NoDup inventory.*1
  ∧ ∀ category files, (category, files) ∈ inventory →
      files ≠ [] ∧ category ∈ FILE_CATEGORIES.*1.

(** ** Existence checks that raise *)

(** [Path.exists()] answers [False] only for the errors of [stat] that mean
    that nothing is there; any other error is raised again (permission
    denied on a directory above the path, a name that is too long). An
    environment says, beside what the operating system refuses to create, at
    which paths [stat] fails in that way. *)
Record Env := mkEnv {
  policy : Policy;
  exists_raises : Path → bool
}.

(** [p.exists()], as the value it returns or the exception it raises. *)
Definition Path_exists (env : Env) (fs : gmap Path node) (p : Path)
    : exn + bool :=
  if exists_raises env p then inl OSError else inr (path_exists fs p).

(** The [while target_path.exists()] loop over the answers [check] of the
    calls of [exists()], at most [fuel] iterations: an exception of a call
    leaves the loop. *)
Fixpoint while_exists_with (check : Path → exn + bool) (fuel : nat)
    (target_dir source_file target_path : Path) (counter : nat)
    : option (exn + Path) :=
  match check target_path with
  | inl e => Some (inl e)
  | inr false => Some (inr target_path)
  | inr true =>
      match fuel with
      | O => None
      | S fuel' =>
          while_exists_with check fuel' target_dir source_file
            (numbered target_dir source_file counter) (S counter)
      end
  end.

(** The loop on a filesystem, with one iteration more than the filesystem
    has entries, which always suffices ([plan_target_loop]); the default is
    never taken. *)
Definition plan_target (env : Env) (fs : gmap Path node)
    (target_dir source_file : Path) : exn + Path :=
  default (inl OSError)
    (while_exists_with (Path_exists env fs) (S (size fs)) target_dir
       source_file (target_dir /: pathlib.name source_file) 1).

(** [create_hybrid_structure] and [create_symbolic_links] in an environment
    where the existence checks may raise. Without such a fault they are the
    functions above ([create_symbolic_links_env_quiet]). *)
Definition create_hybrid_structure_env (env : Env) (category : string)
    (source_file base_output_dir : Path) (dry_run : bool) : M Path :=
  let target_dir := target_dir_of category source_file base_output_dir in
  (if dry_run then ret () else mkdir_parents (policy env) target_dir) ;;;
  (fun fs => (fs, plan_target env fs target_dir source_file)).

Definition link_one_env (env : Env) (category : string)
    (source_file output_dir : Path) (dry_run : bool) (fs : gmap Path node)
    : gmap Path node * Entry :=
  match
    create_hybrid_structure_env env category source_file output_dir dry_run fs
  with
  | (fs1, inl e) =>
      (fs1, mkEntry category source_file None (handler e))
  | (fs1, inr target_path) =>
      if dry_run then
        (fs1, mkEntry category source_file (Some target_path) Created)
      else
        match os_symlink (policy env) source_file target_path fs1 with
        | (fs2, inr _) =>
            (fs2, mkEntry category source_file (Some target_path) Created)
        | (fs2, inl e) =>
            (fs2, mkEntry category source_file (Some target_path)
                    (handler e))
        end
  end.

Definition step_env (env : Env) (output_dir : Path) (dry_run : bool)
    (category : string) (r : Run) (source_file : Path) : Run :=
  let '(fs', entry) :=
    link_one_env env category source_file output_dir dry_run (r_fs r) in
  mkRun fs' (count (e_outcome entry) (r_stats r)) (r_log r ++ [entry]).

Definition link_files_env (env : Env) (output_dir : Path) (dry_run : bool)
    (category : string) (files : list Path) (r : Run) : Run :=
  foldl (step_env env output_dir dry_run category) r files.

Definition link_categories_env (env : Env) (output_dir : Path)
    (dry_run : bool) (files_by_category : list (string * list Path))
    (r : Run) : Run :=
  foldl (fun r cf => link_files_env env output_dir dry_run cf.1 cf.2 r)
        r files_by_category.

Definition create_symbolic_links_env (env : Env)
    (files_by_category : list (string * list Path)) (output_dir : Path)
    (dry_run : bool) (fs : gmap Path node) : Run :=
  link_categories_env env output_dir dry_run files_by_category
    (mkRun fs (mkStats 0 0 0) []).

Definition run_jobs_env (env : Env) (output_dir : Path) (dry_run : bool)
    (js : list (string * Path)) (r : Run) : Run :=
  foldl (fun r job => step_env env output_dir dry_run job.1 r job.2) r js.

(** The trace entry of a dry run for a planner result. *)
Definition preview_entry (category : string) (source_file : Path)
    (plan : exn + Path) : Entry :=
  match plan with
  | inr target_path =>
      mkEntry category source_file (Some target_path) Created
  | inl e => mkEntry category source_file None (handler e)
  end.

(** Whether the planner raises for a file of the inventory on [fs]. *)
Definition plan_raises (env : Env) (output_dir : Path)
    (fs : gmap Path node) (job : string * Path) : bool :=
  match plan_target env fs (target_dir_of job.1 job.2 output_dir) job.2 with
  | inl _ => true
  | inr _ => false
  end.

(** * Properties *)

(** ** Strings and paths *)

Section StringFacts.
Import PyStr.

Lemma lower_char_dot a :
    Ascii.eqb (lower_char a) "."%char = Ascii.eqb a "."%char.
  Proof. by destruct a as [[] [] [] [] [] [] [] []]. Qed.

Lemma lower_char_idemp a : lower_char (lower_char a) = lower_char a.
  Proof. by destruct a as [[] [] [] [] [] [] [] []]. Qed.

Lemma lower_length s : String.length (lower s) = String.length s.
  Proof. induction s; simpl; congruence. Qed.

Lemma lower_idemp s : lower (lower s) = lower s.
  Proof. induction s; simpl; [done|]. by rewrite lower_char_idemp, IHs. Qed.

Lemma rfind_lower s : rfind "." (lower s) = rfind "." s.
  Proof. induction s; simpl; [done|]. by rewrite IHs, lower_char_dot. Qed.

Lemma lower_drop n s : lower (drop n s) = drop n (lower s).
  Proof. revert s; induction n; intros [|a s]; simpl; auto. Qed.

Lemma rfind_bounds c s : (-1 ≤ rfind c s < Z.of_nat (String.length s))%Z.
  Proof.
    induction s as [|a s IH]; simpl; [lia|].
    destruct (Z.leb_spec 0 (rfind c s)); [lia|].
    destruct (Ascii.eqb a c); lia.
  Qed.

Lemma drop_length n s :
    String.length (drop n s) = String.length s - n.
  Proof. revert s; induction n; intros [|a s]; simpl; auto. Qed.


Lemma has_suffix_lower s : pathlib.has_suffix (lower s) = pathlib.has_suffix s.
  Proof. unfold pathlib.has_suffix. by rewrite rfind_lower, lower_length. Qed.

Lemma suffix_of_lower s :
    pathlib.suffix_of (lower s) = lower (pathlib.suffix_of s).
  Proof.
    unfold pathlib.suffix_of. rewrite has_suffix_lower, rfind_lower.
    destruct (pathlib.has_suffix s); [|done]. by rewrite lower_drop.
  Qed.


End StringFacts.

(** ** Category classifier *)

Lemma lookup_category_Some ext table category :
  lookup_category ext table = Some category →
  ∃ extensions, (category, extensions) ∈ table ∧ ext ∈ extensions.
Proof.
  induction table as [|[c exts] rest IH]; simpl; [done|].
  case_bool_decide as Hin.
  - intros [= <-]. exists exts. split; [left | done].
  - intros [exts' [? ?]]%IH. exists exts'. split; [by right | done].
Qed.

Lemma lookup_category_None ext table :
  (∀ category extensions,
     (category, extensions) ∈ table → ext ∉ extensions) →
  lookup_category ext table = None.
Proof.
  induction table as [|[c exts] rest IH]; simpl; [done|]. intros H.
  rewrite bool_decide_eq_false_2 by (apply (H c); left).
  apply IH. intros c' e' ?. apply (H c'). by right.
Qed.

Lemma extensions_have_two_chars category extensions ext :
  (category, extensions) ∈ FILE_CATEGORIES → ext ∈ extensions →
  2 ≤ String.length ext.
Proof.
  unfold FILE_CATEGORIES. intros Hc He.
  repeat (apply elem_of_cons in Hc as [[= -> ->] | Hc];
          [ repeat (apply elem_of_cons in He as [-> | He]; [simpl; lia|]);
            by apply elem_of_nil in He | ]).
  by apply elem_of_nil in Hc.
Qed.

Lemma lookup_category_short ext :
  String.length ext < 2 → lookup_category ext FILE_CATEGORIES = None.
Proof.
  intros Hlen. destruct (lookup_category ext FILE_CATEGORIES) eqn:E; [|done].
  apply lookup_category_Some in E as (exts & Hc & He).
  pose proof (extensions_have_two_chars _ _ _ Hc He). lia.
Qed.

Lemma get_file_category_spec file_path :
  get_file_category file_path = spec_classify (pathlib.name file_path).
Proof.
  unfold get_file_category, spec_classify, pathlib.suffix, pathlib.suffix_of,
    pathlib.has_suffix, spec_extension.
  set (nm := pathlib.name file_path).
  pose proof (rfind_bounds "." nm) as Hb.
  destruct (Z.ltb_spec 0 (PyStr.rfind "." nm)) as [Hpos|Hneg];
    destruct (Z.leb_spec (PyStr.rfind "." nm) 0) as [Hle|Hgt];
    try lia; simpl; [|done].
  destruct (Z.ltb_spec (PyStr.rfind "." nm) (Z.of_nat (String.length nm) - 1));
    [done|].
  symmetry. apply lookup_category_short.
  rewrite lower_length, drop_length. lia.
Qed.

Lemma get_file_category_lower file_path other :
  PyStr.lower (pathlib.name file_path) = PyStr.lower (pathlib.name other) →
  get_file_category file_path = get_file_category other.
Proof.
  intros H. unfold get_file_category, pathlib.suffix.
  by rewrite <- !suffix_of_lower, H.
Qed.

(** C6. The classifier takes the final extension of the name (from the last
    dot, inclusive; none for a name without a dot or whose only dot leads),
    lowercases it and looks it up in the static table: it agrees with the
    classifier worded by the specification on every name, is insensitive to
    the case of the name, returns none when there is no extension or the
    extension is in no category's set, and the examples of the specification
    evaluate as stated. *)
Theorem classification_contract (file_path other : Path) :
  get_file_category file_path = spec_classify (pathlib.name file_path)
  ∧ ((PyStr.rfind "." (pathlib.name file_path) ≤ 0)%Z →
     pathlib.suffix file_path = "")
  ∧ (PyStr.lower (pathlib.name file_path) = PyStr.lower (pathlib.name other) →
     get_file_category file_path = get_file_category other)
  ∧ (pathlib.suffix file_path = "" → get_file_category file_path = None)
  ∧ ((∀ category extensions,
        (category, extensions) ∈ FILE_CATEGORIES →
        PyStr.lower (pathlib.suffix file_path) ∉ extensions) →
     get_file_category file_path = None)
  ∧ get_file_category (mkPath "" "" ["PHOTO.JPG"]) = Some "pictures"
  ∧ get_file_category (mkPath "" "" ["photo.jpg"]) = Some "pictures"
  ∧ get_file_category (mkPath "" "" ["unknown.xyz"]) = None
  ∧ get_file_category (mkPath "" "" ["README"]) = None.
Proof.
  split; [apply get_file_category_spec|].
  split.
  { intros Hle. unfold pathlib.suffix, pathlib.suffix_of, pathlib.has_suffix.
    destruct (Z.ltb_spec 0 (PyStr.rfind "." (pathlib.name file_path)));
      [lia|done]. }
  split; [apply get_file_category_lower|].
  split; [by unfold get_file_category; intros ->|].
  split; [intros H; by apply lookup_category_None|].
  by vm_compute.
Qed.

Lemma classification_contract_witness :
  get_file_category (mkPath "C:" "\" ["Users"; "Abe"; "Movie.MKV"])
  = get_file_category (mkPath "" "/" ["home"; "abe"; "movie.mkv"])
  ∧ get_file_category (mkPath "" "/" ["home"; "abe"; ".bashrc"]) = None.
Proof.
  split.
  - pose proof (classification_contract
                  (mkPath "C:" "\" ["Users"; "Abe"; "Movie.MKV"])
                  (mkPath "" "/" ["home"; "abe"; "movie.mkv"]))
      as (_ & _ & Hcase & _).
    apply Hcase. reflexivity.
  - pose proof (classification_contract
                  (mkPath "" "/" ["home"; "abe"; ".bashrc"])
                  (mkPath "" "/" []))
      as (_ & Hdot & _ & Hnone & _).
    apply Hnone, Hdot. vm_compute. discriminate.
Defined.

(** ** Exclusion policy *)

Lemma excluded_dirs_lowercase entry :
  entry ∈ EXCLUDED_DIRS → PyStr.lower entry = entry.
Proof.
  unfold EXCLUDED_DIRS. intros H.
  repeat (apply elem_of_cons in H as [-> | H]; [reflexivity|]).
  by apply elem_of_nil in H.
Qed.

Lemma elem_of_removelast {A} (x : A) (l : list A) :
  x ∈ removelast l → x ∈ l.
Proof.
  induction l as [|a [|b l] IH]; simpl; [done| |].
  - by intros ?%elem_of_nil.
  - intros [-> | H]%elem_of_cons; [left | right; by apply IH].
Qed.

Lemma excluded_part path part :
  part ∈ pathlib.parts path → PyStr.lower part ∈ EXCLUDED_DIRS →
  should_exclude_directory path = true.
Proof.
  intros Hpart Hex. unfold should_exclude_directory.
  destruct (PyStr.startswith _ _); [done|].
  case_bool_decide; [done|].
  apply existsb_exists. exists (PyStr.lower part). split.
  - by apply list_elem_of_In.
  - apply bool_decide_eq_true_2. by apply list_elem_of_fmap_2.
Qed.

(** C7. A directory one of whose ancestor components matches an entry of the
    exclusion set, whatever the case of its letters, is excluded, whatever
    its own name. *)
Theorem excluded_ancestor (path : Path) (component entry : string) :
  component ∈ ancestor_components path →
  entry ∈ EXCLUDED_DIRS →
  PyStr.lower component = PyStr.lower entry →
  should_exclude_directory path = true.
Proof.
  intros Hc He Heq. apply (excluded_part path component).
  - by apply elem_of_removelast.
  - rewrite Heq. by rewrite excluded_dirs_lowercase.
Qed.

Lemma excluded_ancestor_witness :
  PyStr.startswith "." "System32" = false
  ∧ (PyStr.lower "System32" ∉ EXCLUDED_DIRS)
  ∧ should_exclude_directory (mkPath "C:" "\" ["Windows"; "System32"]) = true.
Proof.
  split; [by vm_compute|]. split.
  - apply (bool_decide_unpack (PyStr.lower "System32" ∉ EXCLUDED_DIRS)).
    by vm_compute.
  - apply (excluded_ancestor (mkPath "C:" "\" ["Windows"; "System32"])
             "Windows" "windows").
    + apply (bool_decide_unpack _). by vm_compute.
    + apply (bool_decide_unpack _). by vm_compute.
    + reflexivity.
Defined.

(** The cases of the repository's own exclusion test. *)
Example test_directory_exclusion :
  should_exclude_directory (mkPath "C:" "\" ["Windows"; "System32"]) = true
  ∧ should_exclude_directory (mkPath "C:" "\" ["Program Files"]) = true
  ∧ should_exclude_directory (mkPath "C:" "\" ["Users"; "Abe"; ".cache"]) = true
  ∧ should_exclude_directory (mkPath "C:" "\" ["Users"; "Abe"; "node_modules"])
    = true
  ∧ should_exclude_directory (mkPath "C:" "\" ["Users"; "Abe"; "Documents"])
    = false
  ∧ should_exclude_directory (mkPath "C:" "\" ["Users"; "Abe"; "Pictures"])
    = false.
Proof. by vm_compute. Qed.

(** ** Namespace of a planned link *)

Lemma try_parent_name_never_raises source_file :
  ∃ parent_name, try_parent_name source_file = inr parent_name.
Proof. unfold try_parent_name. destruct (_ || _); eauto. Qed.

(** The namespace is the name of the parent directory when there is one, and
    otherwise what is left of the drive; the token ["root"] of the handler
    is never produced by the fallback. *)
Lemma parent_name_cases source_file :
  let parent_dir := pathlib.name (pathlib.parent source_file) in
  (parent_dir ≠ "" → parent_dir ≠ "\" → parent_dir ≠ "/" →
   parent_name source_file = parent_dir)
  ∧ (parent_dir = "" ∨ parent_dir = "\" ∨ parent_dir = "/" →
     parent_name source_file =
       PyStr.remove_char "\" (PyStr.remove_char ":" (drive source_file))).
Proof.
  unfold parent_name, try_parent_name. simpl. split.
  - intros H1 H2 H3. by rewrite !bool_decide_eq_false_2.
  - intros [H | [H | H]]; rewrite H; reflexivity.
Qed.

(** C3, at a file directly under a root without a drive: the parent has no
    name, the drive is empty, nothing raises, and the namespace is the empty
    string, not ["root"]; the link is planned directly in the category
    directory. *)
Theorem namespace_of_root_file_is_empty :
  let source_file := mkPath "" "/" ["photo.jpg"] in
  let base_output_dir := mkPath "" "/" ["out"] in
  pathlib.name (pathlib.parent source_file) = ""
  ∧ drive source_file = ""
  ∧ try_parent_name source_file = inr ""
  ∧ parent_name source_file = ""
  ∧ parent_name source_file ≠ "root"
  ∧ base_output_dir /: "pictures" /: parent_name source_file
    = mkPath "" "/" ["out"; "pictures"].
Proof. by vm_compute. Qed.

(** ** Filesystem primitives *)

Section FilesystemFacts.

Context (os : Policy).
Implicit Types (fs : gmap Path node) (p d : Path).


Lemma stat_aux_S n fs p :
    stat_aux (S n) fs p
    = match fs !! p with
      | Some (SymLink d) => stat_aux n fs (link_dest p d)
      | o => o
      end.
  Proof. reflexivity. Qed.

Lemma stat_lookup n fs p x : stat_aux n fs p = Some x → is_Some (fs !! p).
  Proof. destruct n; simpl; destruct (fs !! p); eauto; done. Qed.

Lemma stat_plain n fs p v :
    fs !! p = Some v → (∀ t, v ≠ SymLink t) → stat_aux n fs p = Some v.
  Proof. intros E Hv. destruct n; simpl; rewrite E; destruct v; naive_solver. Qed.



Lemma path_exists_lookup fs p :
    path_exists fs p = true → is_Some (fs !! p).
  Proof.
    unfold path_exists, stat. intros [x Hx]%bool_decide_eq_true.
    by eapply stat_lookup.
  Qed.

Lemma is_dir_exists fs p : is_dir fs p = true → path_exists fs p = true.
  Proof.
    unfold is_dir, path_exists. intros H%bool_decide_eq_true.
    apply bool_decide_eq_true. by rewrite H.
  Qed.

Lemma is_dir_stat fs p : is_dir fs p = true ↔ stat fs p = Some Directory.
  Proof. unfold is_dir. apply bool_decide_eq_true. Qed.

Local Ltac error_case e :=
    right; exists e; repeat split; try done; try (by intros []);
    try (intros;
         match goal with
         | H : is_dir _ _ = true |- _ => apply is_dir_stat in H; congruence
         end).

  (** [os.mkdir] either adds the directory or leaves everything as it is. *)
Lemma os_mkdir_cases d fs fs' r :
    os_mkdir os d fs = (fs', r) →
    (r = inr () ∧ fs !! d = None ∧ fs' = <[d := Directory]> fs
     ∧ is_dir fs (pathlib.parent d) = true ∧ mkdir_refused os d = false)
    ∨ (∃ e, r = inl e ∧ fs' = fs ∧ is_OSError e = true
            ∧ (e = FileExistsError ↔ is_Some (fs !! d))).
  Proof.
    unfold os_mkdir. destruct (fs !! d) as [v|] eqn:E.
    { intros [= <- <-]. error_case FileExistsError. }
    destruct (names d).
    { intros [= <- <-]. error_case FileNotFoundError. }
    destruct (stat fs (pathlib.parent d)) as [[| |t]|] eqn:Es.
    - destruct (mkdir_refused os d) eqn:Er; intros [= <- <-].
      + error_case OSError.
      + left. split_and!; try done. by apply is_dir_stat.
    - intros [= <- <-]. error_case OSError.
    - intros [= <- <-]. error_case OSError.
    - intros [= <- <-]. error_case FileNotFoundError.
  Qed.

Lemma is_dir_insert_new fs d :
    fs !! d = None → is_dir (<[d := Directory]> fs) d = true.
  Proof.
    intros _. apply is_dir_stat. unfold stat. simpl.
    by rewrite lookup_insert_eq.
  Qed.

Lemma mkdir_except_OSError_contract d e fs fs' r :
    mkdir_except_OSError d e fs = (fs', r) →
    fs' = fs ∧ (r = inr () → is_dir fs d = true)
    ∧ (is_OSError e = true → is_dir fs d = true → r = inr ()).
  Proof.
    unfold mkdir_except_OSError.
    destruct (is_OSError e), (is_dir fs d); simpl; intros [= <- <-];
      naive_solver.
  Qed.

Lemma mkdir_exist_ok_contract d : mkdir_contract d (mkdir_exist_ok os d).
  Proof.
    intros fs fs' r. unfold mkdir_exist_ok.
    destruct (os_mkdir os d fs) as [fs1 r1] eqn:E.
    apply os_mkdir_cases in E
      as [(-> & Hnone & -> & _) | (e & -> & -> & HOS & Hex)].
    - intros [= <- <-]. split_and!.
      + by apply insert_subseteq.
      + intros _. by apply is_dir_insert_new.
      + intros Hd%is_dir_exists%path_exists_lookup.
        rewrite Hnone in Hd. by destruct Hd.
    - assert (is_dir fs d = true → e = FileExistsError) as Hdir.
      { intros Hd%is_dir_exists%path_exists_lookup. by apply Hex. }
      destruct e; try done.
      + intros (-> & H1 & H2)%mkdir_except_OSError_contract.
        split_and!; [done | done | intros Hd; split; [|done]; by apply H2].
      + intros [= <- <-]. split_and!; [done | done | ].
        intros Hd. by specialize (Hdir Hd).
      + intros (-> & H1 & H2)%mkdir_except_OSError_contract.
        split_and!; [done | done | intros Hd; split; [|done]; by apply H2].
  Qed.

Lemma mkdir_parents_rev_contract dr rt rnames :
    mkdir_contract (mkPath dr rt (rev rnames))
                   (mkdir_parents_rev os dr rt rnames).
  Proof.
    induction rnames as [|nm rparent IH]; intros fs fs' r; simpl;
      destruct (os_mkdir os _ fs) as [fs1 r1] eqn:E;
      apply os_mkdir_cases in E
        as [(-> & Hnone & -> & _) | (e & -> & -> & HOS & Hex)].
    - intros [= <- <-]. split_and!.
      + by apply insert_subseteq.
      + intros _. by apply is_dir_insert_new.
      + intros Hd%is_dir_exists%path_exists_lookup.
        rewrite Hnone in Hd. by destruct Hd.
    - assert (is_dir fs (mkPath dr rt []) = true → e = FileExistsError)
        as Hdir.
      { intros Hd%is_dir_exists%path_exists_lookup. by apply Hex. }
      destruct e; try done.
      + intros (-> & H1 & H2)%mkdir_except_OSError_contract.
        split_and!; [done | done | intros Hd; split; [|done]; by apply H2].
      + intros [= <- <-]. split_and!; [done | done | ].
        intros Hd. by specialize (Hdir Hd).
      + intros (-> & H1 & H2)%mkdir_except_OSError_contract.
        split_and!; [done | done | intros Hd; split; [|done]; by apply H2].
    - intros [= <- <-]. split_and!.
      + by apply insert_subseteq.
      + intros _. by apply is_dir_insert_new.
      + intros Hd%is_dir_exists%path_exists_lookup.
        rewrite Hnone in Hd. by destruct Hd.
    - assert (is_dir fs (mkPath dr rt (rev rparent ++ [nm])) = true →
              e = FileExistsError) as Hdir.
      { intros Hd%is_dir_exists%path_exists_lookup. by apply Hex. }
      destruct e; try done.
      + intros (-> & H1 & H2)%mkdir_except_OSError_contract.
        split_and!; [done | done | intros Hd; split; [|done]; by apply H2].
      + unfold bind.
        destruct (mkdir_parents_rev os dr rt rparent fs) as [fs2 r2] eqn:E2.
        destruct (IH _ _ _ E2) as (Hsub & _ & _).
        destruct r2 as [e2|[]].
        * intros [= <- <-]. split_and!; [done | done | ].
          intros Hd. by specialize (Hdir Hd).
        * intros Hok. destruct (mkdir_exist_ok_contract _ _ _ _ Hok)
            as (Hsub' & Hdone & _).
          split_and!; [by etrans | done | ].
          intros Hd. by specialize (Hdir Hd).
      + intros (-> & H1 & H2)%mkdir_except_OSError_contract.
        split_and!; [done | done | intros Hd; split; [|done]; by apply H2].
  Qed.

Lemma mkdir_parents_contract d : mkdir_contract d (mkdir_parents os d).
  Proof.
    unfold mkdir_parents.
    pose proof (mkdir_parents_rev_contract (drive d) (root d) (rev (names d)))
      as H.
    rewrite rev_involutive in H. by destruct d.
  Qed.

  (** [os.symlink] either adds the link at a free path or leaves everything
      as it is; an occupied path is [FileExistsError]. *)
Lemma os_symlink_cases src dst fs fs' r :
    os_symlink os src dst fs = (fs', r) →
    (r = inr () ∧ fs !! dst = None ∧ fs' = <[dst := SymLink src]> fs
     ∧ symlink_refused os dst = false)
    ∨ (∃ e, r = inl e ∧ fs' = fs ∧ is_OSError e = true
            ∧ (e = FileExistsError ↔ is_Some (fs !! dst))
            ∧ (is_dir fs (pathlib.parent dst) = true → fs !! dst = None →
               e = OSError ∧ symlink_refused os dst = true)).
  Proof.
    unfold os_symlink. destruct (fs !! dst) as [v|] eqn:E.
    { intros [= <- <-]. error_case FileExistsError. }
    destruct (stat fs (pathlib.parent dst)) as [[| |t]|] eqn:Es.
    - destruct (symlink_refused os dst) eqn:Er; intros [= <- <-].
      + error_case OSError.
      + by left.
    - intros [= <- <-]. error_case OSError.
    - intros [= <- <-]. error_case OSError.
    - intros [= <- <-]. error_case FileNotFoundError.
  Qed.

End FilesystemFacts.

(** ** Link planner *)

Section PlannerFacts.

Implicit Types (fs : gmap Path node) (s : string).

Lemma app_cons a s (t : string) : String a s +:+ t = String a (s +:+ t).
  Proof. reflexivity. Qed.

Lemma app_length s (t : string) :
    String.length (s +:+ t) = String.length s + String.length t.
  Proof. induction s; [done|]. rewrite app_cons. simpl. by rewrite IHs. Qed.


Lemma app_inj_l s (t u : string) : s +:+ t = s +:+ u → t = u.
  Proof. induction s; [done|]. rewrite !app_cons. intros [= ?]. auto. Qed.

Lemma app_inj_r s (t u : string) : s +:+ u = t +:+ u → s = t.
  Proof.
    intros H. assert (String.length s = String.length t) as Hlen.
    { apply (f_equal String.length) in H. rewrite !app_length in H. lia. }
    revert t H Hlen. induction s as [|a s IH]; intros [|b t]; try done.
    rewrite !app_cons. intros [= -> H] [= Hlen]. f_equal. by apply IH.
  Qed.

Lemma str_of_nat_inj i j : PyStr.str_of_nat i = PyStr.str_of_nat j → i = j.
  Proof.
    unfold PyStr.str_of_nat. intros H. apply Unsigned.to_uint_inj.
    apply (f_equal NilEmpty.uint_of_string) in H.
    rewrite !NilEmpty.usu in H. congruence.
  Qed.

Lemma joinpath_segment d s :
    s ≠ "" → d /: s = mkPath (drive d) (root d) (names d ++ [s]).
  Proof. intros. unfold pathlib.joinpath. by rewrite decide_False. Qed.

Lemma joinpath_inj d s (t : string) : s ≠ "" → t ≠ "" → d /: s = d /: t → s = t.
  Proof.
    intros Hs Ht. rewrite !joinpath_segment by done.
    intros [= H]. by apply app_inv_head in H as [= ->].
  Qed.

Lemma joinpath_parent d s : s ≠ "" → pathlib.parent (d /: s) = d.
  Proof.
    intros Hs. rewrite joinpath_segment by done. unfold pathlib.parent.
    simpl. rewrite removelast_last. by destruct d.
  Qed.

Lemma joinpath_name d s : s ≠ "" → pathlib.name (d /: s) = s.
  Proof.
    intros Hs. rewrite joinpath_segment by done. unfold pathlib.name.
    simpl. by rewrite last_snoc.
  Qed.

Lemma numbered_name_nonempty source_file counter :
    numbered_name source_file counter ≠ "".
  Proof.
    intros H. apply (f_equal String.length) in H.
    unfold numbered_name in H. rewrite !app_length in H. simpl in H. lia.
  Qed.

Lemma numbered_inj target_dir source_file i j :
    numbered target_dir source_file i = numbered target_dir source_file j →
    i = j.
  Proof.
    intros H. apply joinpath_inj in H; try apply numbered_name_nonempty.
    apply app_inj_l, app_inj_l, app_inj_r in H. by apply str_of_nat_inj.
  Qed.

Lemma numbered_parent target_dir source_file i :
    pathlib.parent (numbered target_dir source_file i) = target_dir.
  Proof. apply joinpath_parent, numbered_name_nonempty. Qed.


Lemma while_exists_Some n fs target_dir source_file target_path k t :
    while_exists n fs target_dir source_file target_path k = Some t →
    path_exists fs t = false
    ∧ (t = target_path ∨ ∃ i, k ≤ i ∧ t = numbered target_dir source_file i).
  Proof.
    revert target_path k. induction n as [|n IH]; intros tp k; simpl;
      destruct (path_exists fs tp) eqn:E; try discriminate.
    - intros [= <-]. auto.
    - intros (Hf & [-> | (i & ? & ->)])%IH; (split; [exact Hf|]); right.
      + exists k. auto.
      + exists i. split; [lia | reflexivity].
    - intros [= <-]. auto.
  Qed.

Lemma while_exists_None n fs target_dir source_file target_path k :
    while_exists n fs target_dir source_file target_path k = None →
    ∀ i, k ≤ i < k + n →
         path_exists fs (numbered target_dir source_file i) = true.
  Proof.
    revert target_path k. induction n as [|n IH]; intros tp k; simpl;
      destruct (path_exists fs tp) eqn:E; try discriminate.
    - intros _ i ?. lia.
    - intros H i Hi. destruct (decide (i = k)) as [-> | Hne].
      + destruct n; simpl in H;
          destruct (path_exists fs (numbered target_dir source_file k));
          [reflexivity | discriminate | reflexivity | discriminate].
      + apply (IH _ _ H). lia.
  Qed.

  (** The loop ends: the numbered candidates are pairwise different paths,
      so at most [size fs] of them exist. *)
Lemma while_exists_terminates fs target_dir source_file target_path k :
    is_Some (while_exists (S (size fs)) fs target_dir source_file
               target_path k).
  Proof.
    destruct (while_exists _ _ _ _ _ _) as [t|] eqn:E; [eauto|].
    exfalso. pose proof (while_exists_None _ _ _ _ _ _ E) as Hall.
    set (l := numbered target_dir source_file <$> seq k (S (size fs))).
    assert (NoDup l) as Hnd.
    { apply NoDup_fmap_2; [|apply NoDup_seq].
      intros i j. apply numbered_inj. }
    assert ((list_to_set l : gset Path) ⊆ dom fs) as Hsub.
    { intros p [i [-> Hi%elem_of_seq]]%elem_of_list_to_set%list_elem_of_fmap.
      apply elem_of_dom. eapply path_exists_lookup, Hall. lia. }
    apply subseteq_size in Hsub.
    rewrite size_list_to_set, size_dom in Hsub by done.
    unfold l in Hsub. rewrite length_fmap, length_seq in Hsub. lia.
  Qed.

Lemma free_target_loop fs target_dir source_file :
    while_exists (S (size fs)) fs target_dir source_file
      (target_dir /: pathlib.name source_file) 1
    = Some (free_target fs target_dir source_file).
  Proof.
    unfold free_target.
    by destruct (while_exists_terminates fs target_dir source_file
                   (target_dir /: pathlib.name source_file) 1) as [t ->].
  Qed.

  (** The planned target never exists at plan time. *)
Lemma free_target_free fs target_dir source_file :
    path_exists fs (free_target fs target_dir source_file) = false.
  Proof.
    pose proof (free_target_loop fs target_dir source_file) as H.
    by apply while_exists_Some in H as [? _].
  Qed.

Lemma free_target_shape fs target_dir source_file :
    free_target fs target_dir source_file
      = target_dir /: pathlib.name source_file
    ∨ ∃ i, 1 ≤ i ∧ free_target fs target_dir source_file
                   = numbered target_dir source_file i.
  Proof.
    pose proof (free_target_loop fs target_dir source_file) as H.
    by apply while_exists_Some in H as [_ ?].
  Qed.


Lemma free_target_first_number fs target_dir source_file :
    path_exists fs (target_dir /: pathlib.name source_file) = true →
    path_exists fs (numbered target_dir source_file 1) = false →
    free_target fs target_dir source_file
    = numbered target_dir source_file 1.
  Proof.
    intros H1 H2. unfold free_target. simpl. rewrite H1.
    destruct (size fs); simpl; by rewrite H2.
  Qed.

  (** In an existing target directory the planned target lies directly in
      it. *)
Lemma free_target_parent fs target_dir source_file :
    path_exists fs target_dir = true →
    pathlib.parent (free_target fs target_dir source_file) = target_dir.
  Proof.
    intros Hd.
    destruct (free_target_shape fs target_dir source_file)
      as [E | (i & _ & E)].
    - destruct (decide (pathlib.name source_file = "")) as [Hn|Hn].
      + pose proof (free_target_free fs target_dir source_file) as Hf.
        rewrite E, Hn in Hf. unfold pathlib.joinpath in Hf. simpl in Hf.
        congruence.
      + rewrite E. by apply joinpath_parent.
    - rewrite E. apply numbered_parent.
  Qed.

End PlannerFacts.

(** ** Link materializer: one file *)

Section MaterializerFacts.

Context (os : Policy).
Implicit Types (fs : gmap Path node) (r : Run) (f out : Path) (c : string).

Lemma create_hybrid_structure_live c f out fs fs1 res :
    create_hybrid_structure os c f out false fs = (fs1, res) →
    let dir := target_dir_of c f out in
    fs ⊆ fs1
    ∧ (mkdir_parents os dir fs = (fs1, inr ())
       ∧ res = inr (free_target fs1 dir f) ∧ is_dir fs1 dir = true
       ∨ ∃ e, mkdir_parents os dir fs = (fs1, inl e) ∧ res = inl e).
  Proof.
    unfold create_hybrid_structure, bind. simpl.
    destruct (mkdir_parents os _ fs) as [fs' [e|[]]] eqn:E;
      intros [= <- <-];
      destruct (mkdir_parents_contract os _ _ _ _ E) as (Hsub & Hok & _).
    - split; [done|]. right. eauto.
    - split; [done|]. left. auto.
  Qed.

  (** In a dry run nothing is touched and the outcome is [Created]. *)
Lemma link_one_dry c f out fs :
    link_one os c f out true fs
    = (fs, mkEntry c f (Some (free_target fs (target_dir_of c f out) f))
             Created).
  Proof. reflexivity. Qed.

  (** The ways one live iteration can go. *)
Lemma link_one_live c f out fs fs2 entry :
    link_one os c f out false fs = (fs2, entry) →
    let dir := target_dir_of c f out in
    fs ⊆ fs2 ∧ e_category entry = c ∧ e_source entry = f
    ∧ ((∃ e, mkdir_parents os dir fs = (fs2, inl e)
             ∧ e_target entry = None ∧ e_outcome entry = handler e)
       ∨ (∃ fs1, mkdir_parents os dir fs = (fs1, inr ())
            ∧ is_dir fs1 dir = true
            ∧ e_target entry = Some (free_target fs1 dir f)
            ∧ ((fs1 !! free_target fs1 dir f = None
                ∧ symlink_refused os (free_target fs1 dir f) = false
                ∧ fs2 = <[free_target fs1 dir f := SymLink f]> fs1
                ∧ e_outcome entry = Created)
               ∨ (is_Some (fs1 !! free_target fs1 dir f)
                  ∧ fs2 = fs1 ∧ e_outcome entry = Skipped)
               ∨ (fs1 !! free_target fs1 dir f = None
                  ∧ symlink_refused os (free_target fs1 dir f) = true
                  ∧ fs2 = fs1 ∧ e_outcome entry = Failed OSError)))).
  Proof.
    unfold link_one. simpl.
    destruct (create_hybrid_structure os c f out false fs) as [fs1 res] eqn:E.
    apply create_hybrid_structure_live in E
      as (Hsub & [(Hmk & -> & Hdir) | (e & Hmk & ->)]).
    2:{ intros [= <- <-]. split_and!; try done. left. eauto. }
    destruct (os_symlink os f _ fs1) as [fs' [e|[]]] eqn:Es;
      intros [= <- <-]; simpl;
      apply os_symlink_cases in Es
        as [(? & Hfree & -> & Hok) | (e' & [= <-] & -> & _ & Hex & Hpar)];
      try done.
    - split_and!; try done. right. exists fs1. split_and!; try done.
      destruct (fs1 !! free_target _ _ _) as [v|] eqn:El.
      + right; left. split_and!; [eauto | done |].
        assert (e = FileExistsError) as -> by (apply Hex; eauto). done.
      + right; right.
        destruct Hpar as [-> Href]; [|done|by split_and!].
        rewrite free_target_parent; [done|]. by apply is_dir_exists.
    - split_and!; try done.
      + etrans; [done|]. by apply insert_subseteq.
      + right. exists fs1. split_and!; try done. left. by split_and!.
  Qed.

Lemma link_one_mono c f out dry fs fs2 entry :
    link_one os c f out dry fs = (fs2, entry) → fs ⊆ fs2.
  Proof.
    destruct dry.
    - rewrite link_one_dry. by intros [= <- _].
    - by intros (? & _)%link_one_live.
  Qed.

  (** A created link sits at a path that was free and is now taken. *)
Lemma link_one_created c f out fs fs2 entry :
    link_one os c f out false fs = (fs2, entry) →
    e_outcome entry = Created →
    ∃ t, e_target entry = Some t ∧ fs !! t = None
         ∧ fs2 !! t = Some (SymLink f).
  Proof.
    intros (Hsub & _ & _ & [(e & _ & _ & Ho) | (fs1 & Hmk & _ & Ht & Hc)])
      %link_one_live Hcr.
    { rewrite Ho in Hcr. by destruct e. }
    destruct Hc as [(Hfree & _ & -> & _) | [(_ & _ & Ho) | (_ & _ & _ & Ho)]];
      try congruence.
    eexists. split_and!; [done | | by rewrite lookup_insert_eq].
    destruct (mkdir_parents_contract os _ _ _ _ Hmk) as (Hs & _).
    destruct (fs !! free_target _ _ _) as [v|] eqn:E; [|done].
    by rewrite (lookup_weaken _ _ _ _ E Hs) in Hfree.
  Qed.

  (** ** Link materializer: the pass *)

Lemma step_unfold out dry c r f :
    step os out dry c r f
    = mkRun (link_one os c f out dry (r_fs r)).1
            (count (e_outcome (link_one os c f out dry (r_fs r)).2)
                   (r_stats r))
            (r_log r ++ [(link_one os c f out dry (r_fs r)).2]).
  Proof. unfold step. by destruct (link_one _ _ _ _ _ _). Qed.

Lemma run_jobs_app out dry js1 js2 r :
    run_jobs os out dry (js1 ++ js2) r
    = run_jobs os out dry js2 (run_jobs os out dry js1 r).
  Proof. apply foldl_app. Qed.

Lemma link_files_jobs out dry c files r :
    link_files os out dry c files r
    = run_jobs os out dry (pair c <$> files) r.
  Proof. revert r. induction files; intros r; simpl; [done | apply IHfiles]. Qed.

Lemma link_categories_jobs out dry inv r :
    link_categories os out dry inv r = run_jobs os out dry (jobs inv) r.
  Proof.
    revert r. induction inv as [|[c files] inv IH]; intros r; [reflexivity|].
    change (jobs ((c, files) :: inv)) with ((pair c <$> files) ++ jobs inv).
    rewrite run_jobs_app, <- link_files_jobs. apply IH.
  Qed.

Lemma jobs_length inv : length (jobs inv) = total_files inv.
  Proof.
    induction inv as [|[c files] inv IH]; [reflexivity|].
    change (jobs ((c, files) :: inv)) with ((pair c <$> files) ++ jobs inv).
    rewrite length_app, length_fmap, IH. reflexivity.
  Qed.

  (** A property kept by every iteration holds after the pass. *)
Lemma run_jobs_ind (P : Run → Prop) out dry :
    (∀ c r f, P r → P (step os out dry c r f)) →
    ∀ js r, P r → P (run_jobs os out dry js r).
  Proof.
    intros Hstep js. induction js as [|[c f] js IH]; intros r Hr; [done|].
    simpl. apply IH, Hstep, Hr.
  Qed.

Lemma step_mono out dry c r f : r_fs r ⊆ r_fs (step os out dry c r f).
  Proof.
    rewrite step_unfold. simpl.
    destruct (link_one os c f out dry (r_fs r)) eqn:E.
    by eapply link_one_mono.
  Qed.

Lemma run_jobs_mono out dry js r :
    r_fs r ⊆ r_fs (run_jobs os out dry js r).
  Proof.
    apply (run_jobs_ind (fun r' => r_fs r ⊆ r_fs r')); [|done].
    intros c r' f Hr. etrans; [done | apply step_mono].
  Qed.

Lemma step_handled out dry c r f :
    handled (r_stats (step os out dry c r f)) = S (handled (r_stats r)).
  Proof.
    rewrite step_unfold. simpl. unfold handled, count.
    destruct (e_outcome _); simpl; lia.
  Qed.

Lemma step_counters out dry c r f :
    created (r_stats r) ≤ created (r_stats (step os out dry c r f))
    ∧ failed (r_stats r) ≤ failed (r_stats (step os out dry c r f))
    ∧ skipped (r_stats r) ≤ skipped (r_stats (step os out dry c r f)).
  Proof.
    rewrite step_unfold. simpl. unfold count.
    destruct (e_outcome _); simpl; lia.
  Qed.

Lemma run_jobs_handled out dry js r :
    handled (r_stats (run_jobs os out dry js r))
    = handled (r_stats r) + length js.
  Proof.
    revert r. induction js as [|[c f] js IH]; intros r; simpl; [lia|].
    rewrite IH, step_handled. lia.
  Qed.

Lemma run_jobs_counters out dry js r :
    created (r_stats r) ≤ created (r_stats (run_jobs os out dry js r))
    ∧ failed (r_stats r) ≤ failed (r_stats (run_jobs os out dry js r))
    ∧ skipped (r_stats r) ≤ skipped (r_stats (run_jobs os out dry js r)).
  Proof.
    apply (run_jobs_ind (fun r' =>
      created (r_stats r) ≤ created (r_stats r')
      ∧ failed (r_stats r) ≤ failed (r_stats r')
      ∧ skipped (r_stats r) ≤ skipped (r_stats r'))); [|lia].
    intros c r' f ?. pose proof (step_counters out dry c r' f). lia.
  Qed.

Lemma run_jobs_log_length out dry js r :
    length (r_log (run_jobs os out dry js r)) = length (r_log r) + length js.
  Proof.
    revert r. induction js as [|[c f] js IH]; intros r; simpl; [lia|].
    rewrite IH, step_unfold. simpl. rewrite length_app. simpl. lia.
  Qed.



End MaterializerFacts.

(** ** Existence checks that raise *)

Section RaisingFacts.

Context (env : Env).
Implicit Types (fs : gmap Path node) (r : Run) (f out : Path) (c : string).

(** How the loop over the answers of [exists()] ends: with the first
    candidate that is answered [False], or with the exception of the first
    call that raises; every candidate before was answered [True]. *)
Lemma while_exists_with_result check n target_dir source_file target_path
    k res :
  while_exists_with check n target_dir source_file target_path k = Some res →
  (check target_path = inr false ∧ res = inr target_path)
  ∨ (∃ e, check target_path = inl e ∧ res = inl e)
  ∨ (check target_path = inr true
     ∧ ∃ i, k ≤ i < k + n
            ∧ (∀ j, k ≤ j < i →
                    check (numbered target_dir source_file j) = inr true)
            ∧ ((check (numbered target_dir source_file i) = inr false
                ∧ res = inr (numbered target_dir source_file i))
               ∨ ∃ e, check (numbered target_dir source_file i) = inl e
                      ∧ res = inl e)).
Proof.
  revert target_path k. induction n as [|n IH]; intros tp k; simpl;
    destruct (check tp) as [e|[]] eqn:E; try discriminate.
  - intros [= <-]. right; left. by exists e.
  - intros [= <-]. by left.
  - intros [= <-]. right; left. by exists e.
  - intros H. right; right. split; [reflexivity|].
    apply IH in H as [[Hc ->] | [(e & Hc & ->) | (Hc & i & Hi & Hall & H)]].
    + exists k. split; [lia|]. split; [intros j ?; lia|]. by left.
    + exists k. split; [lia|]. split; [intros j ?; lia|]. right. by exists e.
    + exists i. split; [lia|]. split; [|exact H].
      intros j Hj. destruct (decide (j = k)) as [->|]; [exact Hc|].
      apply Hall. lia.
  - intros [= <-]. by left.
Qed.

(** The loop ends as soon as the fuel reaches a candidate that is not
    answered [True]. *)
Lemma while_exists_with_stops check n target_dir source_file target_path
    k i :
  k ≤ i < k + n →
  check (numbered target_dir source_file i) ≠ inr true →
  is_Some (while_exists_with check n target_dir source_file target_path k).
Proof.
  revert target_path k. induction n as [|n IH]; intros tp k Hi Hstop;
    [lia|].
  simpl. destruct (check tp) as [e|[]] eqn:E; [eauto | | eauto].
  destruct (decide (i = k)) as [->|Hne].
  - destruct n; simpl;
      destruct (check (numbered target_dir source_file k)) as [e|[]];
      eauto; done.
  - apply IH; [lia | exact Hstop].
Qed.

(** Among any [size fs + 1] consecutive numbered candidates one does not
    exist: they are different paths. *)
Lemma some_numbered_free fs target_dir source_file k :
  ∃ i, k ≤ i < k + S (size fs)
       ∧ path_exists fs (numbered target_dir source_file i) = false.
Proof.
  destruct (decide (Forall
              (fun i => path_exists fs (numbered target_dir source_file i)
                        = true) (seq k (S (size fs))))) as [Hall|Hnot].
  - exfalso.
    set (l := numbered target_dir source_file <$> seq k (S (size fs))).
    assert (NoDup l) as Hnd.
    { apply NoDup_fmap_2; [|apply NoDup_seq].
      intros i j. apply numbered_inj. }
    assert ((list_to_set l : gset Path) ⊆ dom fs) as Hsub.
    { intros p [i [-> Hi]]%elem_of_list_to_set%list_elem_of_fmap.
      apply elem_of_dom. apply path_exists_lookup.
      by apply (proj1 (Forall_forall _ _) Hall). }
    apply subseteq_size in Hsub.
    rewrite size_list_to_set, size_dom in Hsub by done.
    unfold l in Hsub. rewrite length_fmap, length_seq in Hsub. lia.
  - apply not_Forall_Exists in Hnot; [|apply _].
    apply Exists_exists in Hnot as (i & Hi%elem_of_seq & Hf).
    exists i. split; [lia|]. by apply not_true_is_false.
Qed.

Lemma plan_target_loop fs target_dir source_file :
  while_exists_with (Path_exists env fs) (S (size fs)) target_dir
    source_file (target_dir /: pathlib.name source_file) 1
  = Some (plan_target env fs target_dir source_file).
Proof.
  unfold plan_target.
  destruct (some_numbered_free fs target_dir source_file 1) as (i & Hi & Hf).
  destruct (while_exists_with_stops (Path_exists env fs) (S (size fs))
              target_dir source_file
              (target_dir /: pathlib.name source_file) 1 i Hi) as [res ->];
    [|reflexivity].
  unfold Path_exists. rewrite Hf. by destruct (exists_raises env _).
Qed.

(** The only exception of the planner loop is the one of [exists()]. *)
Lemma plan_target_error fs target_dir source_file e :
  plan_target env fs target_dir source_file = inl e → e = OSError.
Proof.
  intros H. pose proof (plan_target_loop fs target_dir source_file) as Hl.
  rewrite H in Hl.
  assert (∀ p e', Path_exists env fs p = inl e' → e' = OSError) as Herr.
  { unfold Path_exists. intros p e'.
    destruct (exists_raises env p); [by intros [= <-] | discriminate]. }
  apply while_exists_with_result in Hl
    as [[_ [=]] | [(e' & Hc & [= <-]) | (_ & i & _ & _ & [[_ [=]] | H'])]].
  - by eapply Herr.
  - destruct H' as (e' & Hc & [= <-]). by eapply Herr.
Qed.

(** A loop that returns without an exception went the way of the loop
    without faults. *)
Lemma while_exists_with_quiet n fs target_dir source_file target_path k t :
  while_exists_with (Path_exists env fs) n target_dir source_file
    target_path k = Some (inr t) →
  while_exists n fs target_dir source_file target_path k = Some t.
Proof.
  revert target_path k. induction n as [|n IH]; intros tp k; simpl;
    unfold Path_exists at 1; destruct (exists_raises env tp);
    try discriminate; destruct (path_exists fs tp); try discriminate;
    try (by intros [= <-]).
  apply IH.
Qed.

Lemma plan_target_free_target fs target_dir source_file t :
  plan_target env fs target_dir source_file = inr t →
  t = free_target fs target_dir source_file.
Proof.
  intros H. pose proof (plan_target_loop fs target_dir source_file) as Hl.
  rewrite H in Hl. apply while_exists_with_quiet in Hl.
  rewrite free_target_loop in Hl. by injection Hl.
Qed.

(** The existence check of a planned target answered [False]. *)
Lemma plan_target_not_exists fs target_dir source_file t :
  plan_target env fs target_dir source_file = inr t →
  Path_exists env fs t = inr false.
Proof.
  intros H. pose proof (plan_target_loop fs target_dir source_file) as Hl.
  rewrite H in Hl.
  apply while_exists_with_result in Hl
    as [[Hc [= ->]] | [(e & _ & [=]) | (_ & i & _ & _ & H')]]; [exact Hc|].
  destruct H' as [[Hc [= ->]] | (e & _ & [=])]. exact Hc.
Qed.



(** One iteration in an environment with faults is the iteration without
    them, unless an existence check of the planner raises: then the file is
    counted as failed, with no target, after the directory was made. *)
Lemma link_one_env_cases c f out dry fs :
  link_one_env env c f out dry fs = link_one (policy env) c f out dry fs
  ∨ ∃ fs1,
      (if dry then fs1 = fs
       else mkdir_parents (policy env) (target_dir_of c f out) fs
            = (fs1, inr ()))
      ∧ plan_target env fs1 (target_dir_of c f out) f = inl OSError
      ∧ link_one_env env c f out dry fs
        = (fs1, mkEntry c f None (Failed OSError)).
Proof.
  unfold link_one_env, link_one, create_hybrid_structure_env,
    create_hybrid_structure, bind.
  set (dir := target_dir_of c f out).
  destruct dry.
  - unfold ret.
    destruct (plan_target env fs dir f) as [e|t] eqn:E.
    + right. exists fs. apply plan_target_error in E as Heq. subst e.
      by split_and!.
    + left. by rewrite (plan_target_free_target _ _ _ _ E).
  - destruct (mkdir_parents (policy env) dir fs) as [fs1 [e|[]]] eqn:Em;
      [by left|].
    destruct (plan_target env fs1 dir f) as [e|t] eqn:E.
    + right. exists fs1. apply plan_target_error in E as Heq. subst e.
      by split_and!.
    + left. by rewrite (plan_target_free_target _ _ _ _ E).
Qed.

Lemma link_one_env_dry c f out fs :
  link_one_env env c f out true fs
  = (fs, preview_entry c f (plan_target env fs (target_dir_of c f out) f)).
Proof.
  unfold link_one_env, create_hybrid_structure_env, bind, ret, preview_entry.
  by destruct (plan_target env fs _ f).
Qed.


Lemma step_env_unfold out dry c r f :
  step_env env out dry c r f
  = mkRun (link_one_env env c f out dry (r_fs r)).1
          (count (e_outcome (link_one_env env c f out dry (r_fs r)).2)
                 (r_stats r))
          (r_log r ++ [(link_one_env env c f out dry (r_fs r)).2]).
Proof. unfold step_env. by destruct (link_one_env _ _ _ _ _ _). Qed.

Lemma link_files_env_jobs out dry c files r :
  link_files_env env out dry c files r
  = run_jobs_env env out dry (pair c <$> files) r.
Proof. revert r. induction files; intros r; simpl; [done | apply IHfiles]. Qed.

Lemma link_categories_env_jobs out dry inv r :
  link_categories_env env out dry inv r
  = run_jobs_env env out dry (jobs inv) r.
Proof.
  revert r. induction inv as [|[c files] inv IH]; intros r; [reflexivity|].
  change (jobs ((c, files) :: inv)) with ((pair c <$> files) ++ jobs inv).
  unfold run_jobs_env. rewrite foldl_app.
  fold (run_jobs_env env out dry (pair c <$> files) r).
  rewrite <- link_files_env_jobs. apply IH.
Qed.


Lemma run_jobs_env_handled out dry js r :
  handled (r_stats (run_jobs_env env out dry js r))
  = handled (r_stats r) + length js.
Proof.
  revert r. induction js as [|[c f] js IH]; intros r; simpl; [lia|].
  rewrite IH, step_env_unfold. simpl. unfold handled, count.
  destruct (e_outcome _); simpl; lia.
Qed.

(** A dry run leaves the filesystem as it is, plans every file on it, and
    counts a file as created or, when the planner raises, as failed. *)
Lemma run_jobs_env_dry out js r :
  let r' := run_jobs_env env out true js r in
  r_fs r' = r_fs r
  ∧ r_log r'
    = r_log r
      ++ ((fun job =>
             preview_entry job.1 job.2
               (plan_target env (r_fs r) (target_dir_of job.1 job.2 out)
                  job.2)) <$> js)
  ∧ r_stats r'
    = mkStats
        (created (r_stats r)
         + length (filter (fun job => plan_raises env out (r_fs r) job
                                      = false) js))
        (failed (r_stats r)
         + length (filter (fun job => plan_raises env out (r_fs r) job
                                      = true) js))
        (skipped (r_stats r)).
Proof.
  revert r. induction js as [|[c f] js IH]; intros r; simpl.
  - rewrite app_nil_r. split_and!; try done.
    destruct (r_stats r). simpl. f_equal; lia.
  - destruct (IH (step_env env out true c r f)) as (Hfs & Hlog & Hst).
    rewrite Hfs, Hlog, Hst, step_env_unfold, link_one_env_dry.
    cbn [r_fs r_log r_stats fst snd]. rewrite <- app_assoc.
    split_and!; [done | done |].
    rewrite !filter_cons.
    destruct (plan_target env (r_fs r) (target_dir_of c f out) f)
      as [e|t] eqn:E.
    + assert (plan_raises env out (r_fs r) (c, f) = true) as Hr
        by (unfold plan_raises; cbn [fst snd]; by rewrite E).
      rewrite (decide_False (P := plan_raises env out (r_fs r) (c, f)
                                  = false)) by (rewrite Hr; discriminate).
      rewrite (decide_True (P := plan_raises env out (r_fs r) (c, f)
                                 = true)) by exact Hr.
      apply plan_target_error in E. subst e.
      unfold preview_entry, count. cbn. f_equal; lia.
    + assert (plan_raises env out (r_fs r) (c, f) = false) as Hr
        by (unfold plan_raises; cbn [fst snd]; by rewrite E).
      rewrite (decide_True (P := plan_raises env out (r_fs r) (c, f)
                                 = false)) by exact Hr.
      rewrite (decide_False (P := plan_raises env out (r_fs r) (c, f)
                                  = true)) by (rewrite Hr; discriminate).
      unfold preview_entry, count. cbn. f_equal; lia.
Qed.

(** The two counts of a dry run share the files between them. *)
Lemma plan_raises_partition out fs (js : list (string * Path)) :
  length (filter (fun job => plan_raises env out fs job = false) js)
  + length (filter (fun job => plan_raises env out fs job = true) js)
  = length js.
Proof.
  induction js as [|j js IH]; [reflexivity|].
  rewrite !filter_cons. destruct (plan_raises env out fs j).
  - rewrite decide_False by discriminate.
    rewrite decide_True by reflexivity. simpl. lia.
  - rewrite decide_True by reflexivity.
    rewrite decide_False by discriminate. simpl. lia.
Qed.


End RaisingFacts.

(** Without a raising existence check the environment changes nothing. *)
Lemma link_one_env_quiet os c f out dry fs :
  link_one_env (mkEnv os (fun _ => false)) c f out dry fs
  = link_one os c f out dry fs.
Proof.
  destruct (link_one_env_cases (mkEnv os (fun _ => false)) c f out dry fs)
    as [H | (fs1 & _ & Hplan & _)]; [exact H|].
  exfalso.
  pose proof (plan_target_loop (mkEnv os (fun _ => false)) fs1
                (target_dir_of c f out) f) as Hl.
  rewrite Hplan in Hl.
  apply while_exists_with_result in Hl
    as [[_ [=]] | [(e & Hc & _) | (_ & i & _ & _ & [[_ [=]] | (e & Hc & _)])]];
    discriminate Hc.
Qed.

Lemma plan_raises_quiet os out fs (js : list (string * Path)) :
  filter (fun job => plan_raises (mkEnv os (fun _ => false)) out fs job
                     = true) js = [].
Proof.
  induction js as [|[c f] js IH]; [reflexivity|].
  rewrite filter_cons, IH.
  rewrite decide_False; [reflexivity|].
  unfold plan_raises. cbn [fst snd].
  destruct (plan_target _ fs (target_dir_of c f out) f) as [e|t] eqn:E;
    [|discriminate].
  exfalso.
  pose proof (link_one_env_quiet os c f out true fs) as Hl.
  rewrite link_one_env_dry, link_one_dry, E in Hl. simpl in Hl.
  by destruct e.
Qed.

Lemma create_symbolic_links_env_quiet os files_by_category output_dir
    dry_run fs :
  create_symbolic_links_env (mkEnv os (fun _ => false)) files_by_category
    output_dir dry_run fs
  = create_symbolic_links os files_by_category output_dir dry_run fs.
Proof.
  unfold create_symbolic_links_env, create_symbolic_links.
  rewrite link_categories_env_jobs, link_categories_jobs.
  generalize (mkRun fs (mkStats 0 0 0) []).
  induction (jobs files_by_category) as [|[c f] js IH]; intros r;
    [reflexivity|].
  simpl. rewrite <- IH. f_equal.
  by rewrite step_env_unfold, step_unfold, link_one_env_quiet.
Qed.

(** ** Statistics *)

Section Statistics.

Context (os : Policy).

  (** C10. Every file of the inventory increments exactly one of the three
      counters, in a live pass and in a dry run alike: at the end
      created + failed + skipped is the number of files of the inventory
      (and so is the length of the trace), and no counter, a natural number,
      ever goes down. *)
Theorem statistics_partition
      (files_by_category : list (string * list Path)) (output_dir : Path)
      (dry_run : bool) (fs : gmap Path node) :
    let r := create_symbolic_links os files_by_category output_dir dry_run fs
    in
    created (r_stats r) + failed (r_stats r) + skipped (r_stats r)
      = total_files files_by_category
    ∧ length (r_log r) = total_files files_by_category
    ∧ (∀ category r0 source_file,
         let s := r_stats r0 in
         let s' := r_stats (step os output_dir dry_run category r0 source_file)
         in
         s' = mkStats (S (created s)) (failed s) (skipped s)
         ∨ s' = mkStats (created s) (S (failed s)) (skipped s)
         ∨ s' = mkStats (created s) (failed s) (S (skipped s)))
    ∧ (∀ inventory r0,
         let r' := link_categories os output_dir dry_run inventory r0 in
         created (r_stats r0) ≤ created (r_stats r')
         ∧ failed (r_stats r0) ≤ failed (r_stats r')
         ∧ skipped (r_stats r0) ≤ skipped (r_stats r')).
  Proof.
    unfold create_symbolic_links. simpl. split_and!.
    - rewrite link_categories_jobs.
      pose proof (run_jobs_handled os output_dir dry_run
                    (jobs files_by_category) (mkRun fs (mkStats 0 0 0) []))
        as H.
      unfold handled in H. simpl in H. by rewrite jobs_length in H.
    - rewrite link_categories_jobs, run_jobs_log_length, jobs_length. done.
    - intros category r0 source_file. rewrite step_unfold. simpl.
      unfold count. destruct (e_outcome _); auto.
    - intros inventory r0. rewrite link_categories_jobs.
      apply run_jobs_counters.
  Qed.

End Statistics.

(** C5, as the code has it. A dry run creates no filesystem entry. It
    counts as would-be created every file of the inventory for which the
    planner returns, and as failed every file for which an existence check
    of the planner raises; it skips none. The two counts together are the
    number of files of the inventory, which is the sum of the three counters
    of a live pass over the same inputs, so the would-be created count is
    the live created count exactly when the dry run fails as many files as
    the live pass fails or skips. Where no existence check raises, the dry
    run counts every file as created. *)
Theorem preview_counts_every_file (env : Env)
    (files_by_category : list (string * list Path)) (output_dir : Path)
    (fs : gmap Path node) :
  let preview :=
    create_symbolic_links_env env files_by_category output_dir true fs in
  let live :=
    create_symbolic_links_env env files_by_category output_dir false fs in
  r_fs preview = fs
  ∧ r_stats preview
    = mkStats
        (length (filter (fun job => plan_raises env output_dir fs job
                                    = false) (jobs files_by_category)))
        (length (filter (fun job => plan_raises env output_dir fs job
                                    = true) (jobs files_by_category)))
        0
  ∧ created (r_stats preview) + failed (r_stats preview)
    = total_files files_by_category
  ∧ created (r_stats preview) + failed (r_stats preview)
    = created (r_stats live) + failed (r_stats live)
      + skipped (r_stats live)
  ∧ (created (r_stats preview) = created (r_stats live)
     ↔ failed (r_stats preview)
       = failed (r_stats live) + skipped (r_stats live))
  ∧ (∀ os,
       r_stats (create_symbolic_links_env (mkEnv os (fun _ => false))
                  files_by_category output_dir true fs)
       = mkStats (total_files files_by_category) 0 0).
Proof.
  simpl. unfold create_symbolic_links_env.
  rewrite !link_categories_env_jobs.
  pose proof (run_jobs_env_handled env output_dir false
                (jobs files_by_category) (mkRun fs (mkStats 0 0 0) []))
    as Hsum.
  unfold handled in Hsum. simpl in Hsum. rewrite jobs_length in Hsum.
  destruct (run_jobs_env_dry env output_dir (jobs files_by_category)
              (mkRun fs (mkStats 0 0 0) [])) as (Hfs & _ & Hst).
  simpl in Hfs, Hst.
  pose proof (plan_raises_partition env output_dir fs
                (jobs files_by_category)) as Hpart.
  rewrite jobs_length in Hpart.
  rewrite Hfs, Hst. simpl. split_and!; try done; try lia.
  intros os. rewrite link_categories_env_jobs.
  pose proof (run_jobs_env_handled (mkEnv os (fun _ => false)) output_dir
                true (jobs files_by_category)
                (mkRun fs (mkStats 0 0 0) [])) as Hq.
  unfold handled in Hq. simpl in Hq. rewrite jobs_length in Hq.
  destruct (run_jobs_env_dry (mkEnv os (fun _ => false)) output_dir
              (jobs files_by_category) (mkRun fs (mkStats 0 0 0) []))
    as (_ & _ & Hstq).
  simpl in Hstq. rewrite Hstq in Hq |- *. simpl in Hq.
  pose proof (plan_raises_quiet os output_dir fs (jobs files_by_category))
    as Hnone.
  rewrite Hnone in Hq |- *. simpl in Hq |- *. f_equal. lia.
Qed.

(** C5, as stated, fails in two ways. Where the operating system refuses to
    create links, the dry run reports one link and the live pass creates
    none. Where the existence check of the planner raises, the dry run
    itself reports a failed file and no link. *)
Lemma preview_count_differs_from_live :
  let source_file := mkPath "" "/" ["data"; "Photos"; "img.jpg"] in
  let output_dir := mkPath "" "/" ["out"] in
  let fs : gmap Path node :=
    <[mkPath "" "/" [] := Directory]> (<[output_dir := Directory]>
      (<[source_file := RegularFile]> ∅)) in
  let inventory := [("pictures", [source_file])] in
  let refusing :=
    mkEnv (mkPolicy (fun _ => false) (fun _ => true)) (fun _ => false) in
  let raising :=
    mkEnv (mkPolicy (fun _ => false) (fun _ => false)) (fun _ => true) in
  (r_stats (create_symbolic_links_env refusing inventory output_dir true fs)
   = mkStats 1 0 0
   ∧ r_stats (create_symbolic_links_env refusing inventory output_dir false
                fs)
     = mkStats 0 1 0)
  ∧ r_stats (create_symbolic_links_env raising inventory output_dir true fs)
    = mkStats 0 1 0.
Proof. by vm_compute. Qed.

(** ** Outcomes of the materializer *)

(** C8. In a live pass, once the target is planned: an entry already at the
    target path makes the outcome [Skipped] and increments [skipped] alone;
    any other error of the link creation makes it [Failed] with that error
    and increments [failed] alone; and whatever the outcome of a file, the
    loop goes on with the files after it and every file gets its trace
    entry. *)
Theorem materializer_outcomes (os : Policy) (output_dir : Path)
    (category : string) (r : Run) (source_file : Path)
    (fs1 : gmap Path node) (target_path : Path) :
  create_hybrid_structure os category source_file output_dir false (r_fs r)
    = (fs1, inr target_path) →
  let r' := step os output_dir false category r source_file in
  let s := r_stats r in
  (is_Some (fs1 !! target_path) →
   r_log r' = r_log r ++ [mkEntry category source_file (Some target_path)
                            Skipped]
   ∧ r_stats r' = mkStats (created s) (failed s) (S (skipped s))
   ∧ r_fs r' = fs1)
  ∧ (∀ e, os_symlink os source_file target_path fs1 = (fs1, inl e) →
          e ≠ FileExistsError →
          r_log r' = r_log r ++ [mkEntry category source_file
                                   (Some target_path) (Failed e)]
          ∧ r_stats r' = mkStats (created s) (S (failed s)) (skipped s)
          ∧ r_fs r' = fs1)
  ∧ (∀ before after r0,
       link_files os output_dir false category
         (before ++ source_file :: after) r0
       = link_files os output_dir false category after
           (step os output_dir false category
              (link_files os output_dir false category before r0)
              source_file))
  ∧ (∀ files r0,
       length (r_log (link_files os output_dir false category files r0))
       = length (r_log r0) + length files).
Proof.
  intros Hplan. simpl. split_and!.
  - intros Hex. rewrite step_unfold. unfold link_one. rewrite Hplan.
    destruct (os_symlink os source_file target_path fs1) as [fs2 res] eqn:Es.
    apply os_symlink_cases in Es
      as [(_ & Hfree & _) | (e & -> & -> & _ & Hiff & _)].
    { rewrite Hfree in Hex. by destruct Hex. }
    apply Hiff in Hex as ->. done.
  - intros e Hs Hne. rewrite step_unfold. unfold link_one.
    rewrite Hplan, Hs. simpl. by destruct e.
  - intros before after r0. unfold link_files. by rewrite foldl_app.
  - intros files r0.
    by rewrite link_files_jobs, run_jobs_log_length, length_fmap.
Qed.

Lemma materializer_outcomes_witness :
  let os := mkPolicy (fun _ => false) (fun _ => false) in
  let source_file := mkPath "" "/" ["data"; "Photos"; "img.jpg"] in
  let output_dir := mkPath "" "/" ["out"] in
  let target_path := mkPath "" "/" ["out"; "pictures"; "Photos"; "img.jpg"] in
  let fs : gmap Path node :=
    <[mkPath "" "/" ["out"; "pictures"; "Photos"] := Directory]>
      (<[target_path := SymLink (mkPath "" "/" ["gone"; "img.jpg"])]> ∅) in
  let r := mkRun fs (mkStats 0 0 0) [] in
  r_log (step os output_dir false "pictures" r source_file)
  = [mkEntry "pictures" source_file (Some target_path) Skipped].
Proof.
  simpl.
  refine (proj1 (proj1 (materializer_outcomes _ _ _ _ _ _ _ _) _)).
  - reflexivity.
  - vm_compute. eauto.
Defined.

(** ** Distinct targets *)

Section DistinctTargets.

Context (os : Policy).

Lemma created_targets_snoc log entry :
    created_targets (log ++ [entry])
    = created_targets log
      ++ match e_outcome entry with
         | Created => option_list (e_target entry)
         | _ => []
         end.
  Proof.
    unfold created_targets. rewrite omap_app. f_equal. simpl.
    destruct (e_outcome entry); [|done..]. by destruct (e_target entry).
  Qed.

  (** Every created target is an entry of the filesystem, and no target was
      created twice. *)
Lemma created_targets_invariant output_dir js r :
    (NoDup (created_targets (r_log r))
     ∧ ∀ t, t ∈ created_targets (r_log r) → is_Some (r_fs r !! t)) →
    let r' := run_jobs os output_dir false js r in
    NoDup (created_targets (r_log r'))
    ∧ ∀ t, t ∈ created_targets (r_log r') → is_Some (r_fs r' !! t).
  Proof.
    simpl. apply (run_jobs_ind os (fun r =>
      NoDup (created_targets (r_log r))
      ∧ ∀ t, t ∈ created_targets (r_log r) → is_Some (r_fs r !! t))).
    clear r. intros c r f [Hnd Hin]. rewrite step_unfold. simpl.
    destruct (link_one os c f output_dir false (r_fs r)) as [fs2 entry] eqn:E.
    simpl. rewrite created_targets_snoc.
    pose proof (link_one_mono _ _ _ _ _ _ _ _ E) as Hsub.
    assert (∀ t, t ∈ created_targets (r_log r) → is_Some (fs2 !! t)) as Hin2.
    { intros t [v Hv]%Hin. exists v. by eapply lookup_weaken. }
    destruct (e_outcome entry) eqn:Ho;
      try (rewrite app_nil_r; by split).
    destruct (link_one_created _ _ _ _ _ _ _ E Ho) as (t & -> & Hfree & Hnew).
    simpl. split.
    - apply NoDup_app. split_and!; [done | | apply NoDup_singleton].
      intros t' Ht' ->%list_elem_of_singleton.
      apply Hin in Ht' as [v Hv]. congruence.
    - intros t' [Ht' | ->%list_elem_of_singleton]%elem_of_app; eauto.
  Qed.

  (** C2, as the code has it. In a live pass the planner sees the links
      created before through the filesystem alone: the targets of the links
      that were created are pairwise different, and each of them is an entry
      of the resulting filesystem. *)
Theorem created_targets_distinct
      (files_by_category : list (string * list Path)) (output_dir : Path)
      (fs : gmap Path node) :
    let r := create_symbolic_links os files_by_category output_dir false fs in
    NoDup (created_targets (r_log r))
    ∧ ∀ t, t ∈ created_targets (r_log r) → is_Some (r_fs r !! t).
  Proof.
    unfold create_symbolic_links. rewrite link_categories_jobs.
    apply created_targets_invariant. simpl. split; [constructor|].
    by intros t ?%elem_of_nil.
  Qed.

End DistinctTargets.

(** C2, as stated, fails in a dry run: nothing records the targets handed
    out, so two files with the same name under parent directories of the
    same name are planned at the same target. *)
Lemma preview_targets_collide :
  let os := mkPolicy (fun _ => false) (fun _ => false) in
  let output_dir := mkPath "" "/" ["out"] in
  let fs : gmap Path node :=
    <[mkPath "" "/" [] := Directory]> (<[output_dir := Directory]> ∅) in
  let inventory :=
    [("pictures", [mkPath "" "/" ["a"; "Photos"; "img.jpg"];
                   mkPath "" "/" ["b"; "Photos"; "img.jpg"]])] in
  ¬ targets_distinct
      (r_log (create_symbolic_links os inventory output_dir true fs)).
Proof.
  simpl. intros H.
  refine (H 0 1 _ _ (mkPath "" "/" ["out"; "pictures"; "Photos"; "img.jpg"])
            _ _ _ _ _); [lia | reflexivity | reflexivity | reflexivity |].
  reflexivity.
Qed.

(** ** Collision suffixing *)

Section Collisions.

Context (os : Policy).
Implicit Types (fs : gmap Path node) (p d : Path).






  (** A link to a regular file given by an anchored path resolves. *)
Lemma link_resolves fs link src :
    pathlib.anchor src ≠ "" → fs !! link = Some (SymLink src) →
    fs !! src = Some RegularFile → path_exists fs link = true.
  Proof.
    intros Ha Hl Hs. apply bool_decide_eq_true. exists RegularFile.
    unfold stat. rewrite (stat_aux_S 39), Hl. unfold link_dest.
    rewrite decide_False by exact Ha. apply stat_plain; [exact Hs|].
    intros t. discriminate.
  Qed.


End Collisions.




(** ** Running the pass twice *)

Section SecondRun.

Context (os : Policy).






End SecondRun.



(** ** Tree scanner *)

Lemma dirtree_nested_ind (P : dirtree → Prop) :
  P Unreadable →
  (∀ dirs files, Forall (fun d => P d.2) dirs → P (Listing dirs files)) →
  ∀ t, P t.
Proof.
  intros HU HL. fix IH 1. intros [dirs files|]; [|exact HU].
  apply HL. induction dirs as [|[d sub] ds IHds]; constructor;
    [apply IH | exact IHds].
Qed.

Lemma inventoried_Exists inventory category file_path :
  inventoried inventory category file_path
  ↔ Exists (fun cf => cf.1 = category ∧ file_path ∈ cf.2) inventory.
Proof.
  rewrite Exists_exists. split.
  - intros (files & Hin & Hp). exists (category, files). auto.
  - intros ([c files] & Hin & <- & Hp). by exists files.
Qed.

Lemma inventoried_append_found category file_path found :
  inventoried (append_found category file_path found) category file_path.
Proof.
  induction found as [|[c files] rest IH]; simpl.
  - exists [file_path]. split; apply list_elem_of_singleton; reflexivity.
  - case_decide as Hc.
    + subst c. exists (files ++ [file_path]). split; [left|].
      apply elem_of_app. right. by apply list_elem_of_singleton.
    + destruct IH as (files' & Hin & Hp). exists files'.
      split; [by right | exact Hp].
Qed.

Lemma inventoried_append_mono category file_path c p found :
  inventoried found c p →
  inventoried (append_found category file_path found) c p.
Proof.
  induction found as [|[c0 files0] rest IH]; simpl;
    intros (files & Hin & Hp).
  - by apply elem_of_nil in Hin.
  - apply elem_of_cons in Hin as [[= -> ->] | Hin].
    + case_decide.
      * exists (files0 ++ [file_path]). split; [left|].
        apply elem_of_app. by left.
      * exists files0. split; [left | exact Hp].
    + assert (inventoried rest c p) as Hrest by (by exists files).
      case_decide.
      * exists files. split; [by right | exact Hp].
      * destruct (IH Hrest) as (files' & Hin' & Hp'). exists files'.
        split; [by right | exact Hp'].
Qed.

Section ScannerFacts.

Context (progress_callback : option Callback).

  (** Whatever happens to a file, what was found before stays found. *)
Lemma scan_file_mono root_path file st c p :
    inventoried (found_files st) c p →
    inventoried (found_files (scan_file progress_callback root_path file st).1)
                c p.
  Proof.
    intros H. unfold scan_file.
    destruct (is_system_file file.2); [exact H|].
    destruct (get_file_category _) as [category|]; [|exact H].
    assert (inventoried
              (append_found category (root_path /: file.1) (found_files st))
              c p) as H' by (by apply inventoried_append_mono).
    destruct progress_callback as [callback|]; [|exact H'].
    simpl. destruct (_ =? _)%nat; [|exact H'].
    destruct (callback _ _ _); exact H'.
  Qed.

  (** A file that is not flagged as a system file, be it because its
      [stat] fails, is inventoried under its category; and the iteration
      raises only if the observer does. *)
Lemma scan_file_complete root_path f s st :
    (is_system_file s = false →
     ∀ c, get_file_category (root_path /: f) = Some c →
          inventoried
            (found_files (scan_file progress_callback root_path (f, s) st).1)
            c (root_path /: f))
    ∧ (callback_quiet progress_callback (root_path /: f) →
       (scan_file progress_callback root_path (f, s) st).2 = inr ()).
  Proof.
    unfold scan_file. simpl. split.
    - intros -> c ->.
      pose proof (inventoried_append_found c (root_path /: f) (found_files st))
        as H.
      destruct progress_callback as [callback|]; [|exact H].
      simpl. destruct (_ =? _)%nat; [|exact H].
      destruct (callback _ _ _); exact H.
    - intros Hq. destruct (is_system_file s); [reflexivity|].
      destruct (get_file_category _) as [category|]; [|reflexivity].
      destruct progress_callback as [callback|] eqn:Ecb; [|reflexivity].
      simpl. destruct (_ =? _)%nat; [|reflexivity].
      by rewrite (Hq callback eq_refl).
  Qed.

Lemma scan_files_mono root_path files st c p :
    inventoried (found_files st) c p →
    inventoried
      (found_files (scan_files progress_callback root_path files st).1) c p.
  Proof.
    revert st. induction files as [|file rest IH]; intros st H; [exact H|].
    simpl. pose proof (scan_file_mono root_path file st c p H) as H1.
    destruct (scan_file progress_callback root_path file st) as [st' [e|[]]];
      [exact H1 | by apply IH].
  Qed.

Lemma scan_files_complete root_path files st :
    (∀ f s, (f, s) ∈ files → callback_quiet progress_callback (root_path /: f)) →
    (scan_files progress_callback root_path files st).2 = inr ()
    ∧ ∀ f s c, (f, s) ∈ files → is_system_file s = false →
        get_file_category (root_path /: f) = Some c →
        inventoried
          (found_files (scan_files progress_callback root_path files st).1)
          c (root_path /: f).
  Proof.
    revert st. induction files as [|[f0 s0] rest IH]; intros st Hq.
    - split; [reflexivity|]. by intros f s c ?%elem_of_nil.
    - simpl.
      destruct (scan_file_complete root_path f0 s0 st) as [Hfound Hok].
      specialize (Hok (Hq f0 s0 ltac:(left))).
      destruct (scan_file progress_callback root_path (f0, s0) st)
        as [st' res] eqn:E. simpl in Hok, Hfound. subst res.
      destruct (IH st') as [IHok IHfound].
      { intros f s Hin. apply (Hq f s). by right. }
      split; [exact IHok|].
      intros f s c [[= -> ->] | Hin]%elem_of_cons Hsys Hcat.
      + apply scan_files_mono. by apply Hfound.
      + by eapply IHfound.
  Qed.

Lemma walk_dirs_keeps root_path ds st c p :
    Forall (fun d => walk_keeps progress_callback d.2) ds →
    inventoried (found_files st) c p →
    inventoried
      (found_files (walk_dirs (walk progress_callback) root_path ds st).1)
      c p.
  Proof.
    intros Hall. revert st.
    induction Hall as [|[d sub] ds Hd _ IH]; intros st H; [exact H|].
    simpl. destruct (should_exclude_directory _); [by apply IH|].
    pose proof (Hd (root_path /: d) st c p H) as H1. simpl in H1.
    destruct (walk progress_callback (root_path /: d) sub st)
      as [st' [e|[]]]; [exact H1 | by apply IH].
  Qed.

Lemma walk_keeps_all t : walk_keeps progress_callback t.
  Proof.
    induction t as [|dirs files IH] using dirtree_nested_ind;
      intros root_path st c p H; [exact H|].
    simpl. pose proof (scan_files_mono root_path files st c p H) as H1.
    destruct (scan_files progress_callback root_path files st)
      as [st1 [e|[]]]; [exact H1|].
    by apply walk_dirs_keeps.
  Qed.

Lemma walk_dirs_finds root_path ds st :
    Forall (fun d => walk_finds progress_callback d.2) ds →
    (∀ d sub q, (d, sub) ∈ ds → file_of (root_path /: d) sub q →
                callback_quiet progress_callback q) →
    (walk_dirs (walk progress_callback) root_path ds st).2 = inr ()
    ∧ ∀ d sub p s c, (d, sub) ∈ ds →
        should_exclude_directory (root_path /: d) = false →
        reachable (root_path /: d) sub p s → is_system_file s = false →
        get_file_category p = Some c →
        inventoried
          (found_files (walk_dirs (walk progress_callback) root_path ds st).1)
          c p.
  Proof.
    intros Hall. revert st.
    induction Hall as [|[d0 sub0] ds Hd Hall IH]; intros st Hq.
    - split; [reflexivity|]. by intros d sub p s c ?%elem_of_nil.
    - assert (∀ d sub q, (d, sub) ∈ ds → file_of (root_path /: d) sub q →
                         callback_quiet progress_callback q) as Hq'.
      { intros d sub q Hin. apply Hq. by right. }
      simpl. destruct (should_exclude_directory (root_path /: d0)) eqn:Eex.
      + destruct (IH st Hq') as [IHok IHfound]. split; [exact IHok|].
        intros d sub p s c [[= -> ->] | Hin]%elem_of_cons Hex;
          [congruence | by eapply IHfound].
      + simpl in Hd. destruct (Hd (root_path /: d0) st) as [Hok Hfound].
        { intros q. apply (Hq d0 sub0). left. }
        destruct (walk progress_callback (root_path /: d0) sub0 st)
          as [st' res] eqn:E. simpl in Hok, Hfound. subst res.
        destruct (IH st' Hq') as [IHok IHfound]. split; [exact IHok|].
        intros d sub p s c [[= -> ->] | Hin]%elem_of_cons Hex Hr Hsys Hcat.
        * apply walk_dirs_keeps.
          { clear -Hall. induction Hall; constructor;
              [apply walk_keeps_all | assumption]. }
          by eapply Hfound.
        * by eapply IHfound.
  Qed.

Lemma walk_finds_all t : walk_finds progress_callback t.
  Proof.
    induction t as [|dirs files IH] using dirtree_nested_ind;
      intros root_path st Hq.
    - split; [reflexivity|]. intros p s c Hr. inversion Hr.
    - simpl.
      destruct (scan_files_complete root_path files st) as [Hok Hfound].
      { intros f s Hin. apply Hq. by eapply file_here. }
      destruct (scan_files progress_callback root_path files st)
        as [st1 res] eqn:E. simpl in Hok, Hfound. subst res.
      destruct (walk_dirs_finds root_path dirs st1 IH) as [Hok' Hfound'].
      { intros d sub q Hin Hf. apply Hq. by eapply file_below. }
      split; [exact Hok'|].
      intros p s c Hr Hsys Hcat. inversion Hr; subst.
      + apply walk_dirs_keeps.
        { clear. induction dirs; constructor;
            [apply walk_keeps_all | assumption]. }
        by eapply Hfound.
      + by eapply Hfound'.
  Qed.

Lemma scan_drives_keeps drives st c p :
    inventoried (found_files st) c p →
    inventoried (found_files (scan_drives progress_callback drives st)) c p.
  Proof.
    revert st. induction drives as [|[drive t] rest IH]; intros st H;
      [exact H|].
    simpl. apply IH. by apply walk_keeps_all.
  Qed.

  (** C4, as the code has it. A file that the walk of a root reaches, that
      is not flagged as a system file (a failing [stat] counts as not
      flagged) and that has a category, is in the returned inventory under
      that category, provided the progress observer raises on no file of
      that root. Failing [stat] calls, directories that cannot be listed and
      whatever happens while the other roots are scanned, an exception of
      the observer there included, take no file away. *)
Theorem scan_fault_isolation (drives : list (Path * dirtree))
      (drive : Path) (t : dirtree) (file_path : Path) (s : stat_result)
      (category : string) :
    (drive, t) ∈ drives →
    reachable drive t file_path s →
    is_system_file s = false →
    get_file_category file_path = Some category →
    (∀ q, file_of drive t q → callback_quiet progress_callback q) →
    inventoried (scan_for_files progress_callback drives) category file_path.
  Proof.
    intros Hin Hr Hsys Hcat Hq. unfold scan_for_files.
    generalize (mkScan [] 0 0).
    induction drives as [|[drive0 t0] rest IH]; intros st;
      [by apply elem_of_nil in Hin|].
    simpl. apply elem_of_cons in Hin as [[= <- <-] | Hin].
    - apply scan_drives_keeps.
      destruct (walk_finds_all t drive st Hq) as [_ Hfound].
      by eapply Hfound.
    - by apply IH.
  Qed.

End ScannerFacts.

Lemma scan_fault_isolation_witness :
  let drive := mkPath "" "/" ["data"] in
  let t :=
    Listing [("locked", Unreadable);
             ("Photos", Listing [] [("img.jpg", StAttributeError)])]
            [("a.jpg", StOSError)] in
  inventoried (scan_for_files None [(mkPath "D:" "\" [], Unreadable);
                                    (drive, t)])
              "pictures" (drive /: "Photos" /: "img.jpg").
Proof.
  intros drive t.
  apply (scan_fault_isolation None _ drive t _ StAttributeError).
  - right. left.
  - apply (reach_dir drive _ _ "Photos"
             (Listing [] [("img.jpg", StAttributeError)])).
    + right. left.
    + reflexivity.
    + apply reach_file. left.
  - reflexivity.
  - reflexivity.
  - intros q _ callback Hcb. discriminate Hcb.
Defined.

(** C4, as stated, fails when the exception is not one of the two that the
    loop body guards against: the progress observer is called at the
    hundredth classified file, its exception leaves the walk of the root,
    and the file after it, a classifiable sibling that the walk would reach,
    is not in the inventory (without the observer it is). *)
Lemma observer_exception_drops_sibling :
  let callback : Callback := fun _ _ _ => Some Exception in
  let drive := mkPath "" "/" ["data"] in
  let files :=
    (fun k => ("img" +:+ PyStr.str_of_nat k +:+ ".jpg", StAttributes 0))
      <$> seq 1 101 in
  let t := Listing [] files in
  let sibling := drive /: "img101.jpg" in
  reachable drive t sibling (StAttributes 0)
  ∧ is_system_file (StAttributes 0) = false
  ∧ get_file_category sibling = Some "pictures"
  ∧ ¬ inventoried (scan_for_files (Some callback) [(drive, t)])
        "pictures" sibling
  ∧ inventoried (scan_for_files None [(drive, t)]) "pictures" sibling.
Proof.
  intros callback drive files t sibling. split_and!.
  - apply reach_file. apply list_elem_of_fmap. exists 101. split.
    + reflexivity.
    + apply elem_of_seq. lia.
  - reflexivity.
  - reflexivity.
  - intros H%inventoried_Exists. revert H.
    apply (bool_decide_unpack (¬ Exists _ _)). by vm_compute.
  - apply inventoried_Exists.
    apply (bool_decide_unpack (Exists _ _)). by vm_compute.
Qed.

(** * Further properties of the code *)

(** ** More on strings *)

(** From its last occurrence on, a string is that character followed by a
    rest without it. *)
Lemma drop_rfind_dot c s :
  (0 ≤ PyStr.rfind c s)%Z →
  ∃ rest, PyStr.drop (Z.to_nat (PyStr.rfind c s)) s = String c rest
          ∧ PyStr.rfind c rest = (-1)%Z.
Proof.
  induction s as [|a s IH]; simpl; [lia|].
  destruct (Z.leb_spec 0 (PyStr.rfind c s)) as [Hge|Hlt].
  - intros _. destruct (IH Hge) as (rest & Hd & Hr). exists rest.
    rewrite Z2Nat.inj_add, Nat.add_1_r by lia. simpl. by split.
  - destruct (Ascii.eqb_spec a c) as [->|]; [|lia].
    intros _. exists s. split; [reflexivity|].
    pose proof (rfind_bounds c s). lia.
Qed.

Lemma rfind_app c s (t : string) :
  PyStr.rfind c (s +:+ t)
  = if (0 <=? PyStr.rfind c t)%Z
    then (Z.of_nat (String.length s) + PyStr.rfind c t)%Z
    else PyStr.rfind c s.
Proof.
  induction s as [|a s IH].
  - change ("" +:+ t) with t. simpl.
    destruct (Z.leb_spec 0 (PyStr.rfind c t)); [lia|].
    pose proof (rfind_bounds c t). lia.
  - rewrite app_cons. simpl PyStr.rfind. rewrite IH.
    destruct (Z.leb_spec 0 (PyStr.rfind c t)) as [Hge|Hlt].
    + destruct (Z.leb_spec 0 (Z.of_nat (String.length s) + PyStr.rfind c t));
        [|lia].
      simpl String.length. lia.
    + reflexivity.
Qed.

Lemma drop_app_length s (t : string) :
  PyStr.drop (String.length s) (s +:+ t) = t.
Proof. induction s as [|a s IH]; [reflexivity|]. by rewrite app_cons. Qed.

Lemma app_assoc_str s (t u : string) : (s +:+ t) +:+ u = s +:+ t +:+ u.
Proof. induction s as [|a s IH]; [reflexivity|]. by rewrite !app_cons, IH. Qed.

(** ** Exclusion policy, in full *)

Lemma empty_name_not_excluded : "" ∉ EXCLUDED_DIRS.
Proof. apply (bool_decide_unpack _). by vm_compute. Qed.

Lemma name_in_parts path :
  pathlib.name path ≠ "" → pathlib.name path ∈ pathlib.parts path.
Proof.
  unfold pathlib.name, pathlib.parts. intros Hne.
  assert (default "" (last (names path)) ∈ names path) as Hin.
  { destruct (last (names path)) as [nm|] eqn:E; [|done].
    simpl. apply last_Some in E as [l' ->].
    apply elem_of_app. right. by apply list_elem_of_singleton. }
  case_decide; [exact Hin | by right].
Qed.

(** A directory is excluded exactly when its name starts with a dot or one
    of the components of its path, the leaf and the anchor included, is on
    the exclusion list, letter case aside. The test of the name alone
    against the list adds nothing to the test of the components. *)
Theorem should_exclude_directory_iff (path : Path) :
  should_exclude_directory path = true
  ↔ PyStr.startswith "." (pathlib.name path) = true
    ∨ ∃ part, part ∈ pathlib.parts path
              ∧ PyStr.lower part ∈ EXCLUDED_DIRS.
Proof.
  split.
  - unfold should_exclude_directory.
    destruct (PyStr.startswith "." (pathlib.name path)); [by left|].
    case_bool_decide as Hname.
    + intros _. right. exists (pathlib.name path). split; [|exact Hname].
      apply name_in_parts. intros E. rewrite E in Hname.
      by apply empty_name_not_excluded.
    + intros (excluded & Hex & Hin%bool_decide_eq_true)%existsb_exists.
      apply list_elem_of_fmap in Hin as (part & -> & Hpart).
      right. exists part. split; [exact Hpart|]. by apply list_elem_of_In.
  - intros [Hdot | (part & Hpart & Hex)].
    + unfold should_exclude_directory. by rewrite Hdot.
    + by eapply excluded_part.
Qed.

(** ** Classifier, in full *)

Lemma lookup_category_member category extensions ext :
  (category, extensions) ∈ FILE_CATEGORIES → ext ∈ extensions →
  lookup_category ext FILE_CATEGORIES = Some category.
Proof.
  unfold FILE_CATEGORIES. intros Hc He.
  repeat (apply elem_of_cons in Hc as [[= -> ->] | Hc];
          [ repeat (apply elem_of_cons in He as [-> | He]; [reflexivity|]);
            by apply elem_of_nil in He | ]).
  by apply elem_of_nil in Hc.
Qed.

(** The category of a file is the one whose extension set holds the
    lowercased suffix, whatever the order of the table: the sets of the
    four categories do not overlap, and no other category is ever
    returned. *)
Theorem get_file_category_iff (file_path : Path) (category : string) :
  get_file_category file_path = Some category
  ↔ ∃ extensions, (category, extensions) ∈ FILE_CATEGORIES
                  ∧ PyStr.lower (pathlib.suffix file_path) ∈ extensions.
Proof.
  unfold get_file_category. split.
  - apply lookup_category_Some.
  - intros (extensions & Hc & He). by eapply lookup_category_member.
Qed.

(** A category that is returned is one of the four of the table, and the
    file then has a suffix, which starts with a dot. *)
Theorem get_file_category_range (file_path : Path) (category : string) :
  get_file_category file_path = Some category →
  category ∈ ["pictures"; "audio"; "video"; "text"]
  ∧ pathlib.suffix file_path ≠ ""
  ∧ PyStr.startswith "." (pathlib.suffix file_path) = true.
Proof.
  intros H. split_and!.
  - apply get_file_category_iff in H as (exts & Hc & _).
    unfold FILE_CATEGORIES in Hc.
    repeat (apply elem_of_cons in Hc as [[= -> _] | Hc];
            [apply (bool_decide_unpack _); by vm_compute|]).
    by apply elem_of_nil in Hc.
  - intros E. unfold get_file_category in H. rewrite E in H. discriminate.
  - unfold get_file_category, pathlib.suffix, pathlib.suffix_of in *.
    destruct (pathlib.has_suffix (pathlib.name file_path)) eqn:E;
      [|discriminate].
    unfold pathlib.has_suffix in E.
    apply andb_true_iff in E as [E _]. apply Z.ltb_lt in E.
    destruct (drop_rfind_dot "." (pathlib.name file_path)) as (rest & -> & _);
      [lia|].
    unfold PyStr.startswith. simpl.
    destruct (ascii_dec "." "."); [by destruct rest | congruence].
Qed.

(** ** Link planner, further *)

(** The planner loop, whatever the existence checks answer. It returns the
    canonical path when the first check answers [False], and raises when
    that check raises. When the first check answers [True], the numbered
    paths are tried from the counter on: if the checks of those before the
    [i]-th answer [True] and the check of the [i]-th does not, the loop ends
    there, as soon as it is given more than [i - counter] iterations: it
    returns the [i]-th numbered path when that check answers [False] and
    raises its exception otherwise. *)
Theorem planner_loop_first_free (check : Path → exn + bool) (fuel : nat)
    (target_dir source_file target_path : Path) (counter i : nat) :
  (check target_path = inr false →
   while_exists_with check fuel target_dir source_file target_path counter
   = Some (inr target_path))
  ∧ (∀ e, check target_path = inl e →
          while_exists_with check fuel target_dir source_file target_path
            counter
          = Some (inl e))
  ∧ (check target_path = inr true →
     (∀ j, counter ≤ j < i →
           check (numbered target_dir source_file j) = inr true) →
     check (numbered target_dir source_file i) ≠ inr true →
     counter ≤ i < counter + fuel →
     while_exists_with check fuel target_dir source_file target_path counter
     = Some (match check (numbered target_dir source_file i) with
             | inl e => inl e
             | inr _ => inr (numbered target_dir source_file i)
             end)).
Proof.
  split_and!.
  - intros H. destruct fuel; simpl; by rewrite H.
  - intros e H. destruct fuel; simpl; by rewrite H.
  - revert target_path counter.
    induction fuel as [|fuel IH]; intros tp k Htp Hbefore Hstop Hi; [lia|].
    simpl. rewrite Htp.
    destruct (decide (i = k)) as [->|Hne].
    + destruct (check (numbered target_dir source_file k)) as [e|[]] eqn:E;
        [| done |]; destruct fuel; simpl; by rewrite E.
    + apply IH; [apply Hbefore; lia | | exact Hstop | lia].
      intros j Hj. apply Hbefore. lia.
Qed.

(** With [img.jpg] and [img_1.jpg] there and a check of [img_2.jpg] that
    raises, the loop raises at the third check. *)
Lemma planner_loop_first_free_witness :
  let target_dir := mkPath "" "/" ["out"] in
  let source_file := mkPath "" "/" ["a"; "img.jpg"] in
  let fs : gmap Path node :=
    <[mkPath "" "/" ["out"; "img.jpg"] := RegularFile]>
      (<[mkPath "" "/" ["out"; "img_1.jpg"] := Directory]> ∅) in
  let env :=
    mkEnv (mkPolicy (fun _ => false) (fun _ => false))
      (fun p => bool_decide (p = mkPath "" "/" ["out"; "img_2.jpg"])) in
  while_exists_with (Path_exists env fs) 5 target_dir source_file
    (target_dir /: pathlib.name source_file) 1
  = Some (inl OSError).
Proof.
  intros target_dir source_file fs env.
  refine (proj2 (proj2 (planner_loop_first_free (Path_exists env fs) 5
                          target_dir source_file
                          (target_dir /: pathlib.name source_file) 1 2))
            _ _ _ _).
  - vm_compute. reflexivity.
  - intros j Hj. assert (j = 1) as -> by lia. vm_compute. reflexivity.
  - vm_compute. discriminate.
  - lia.
Defined.

Lemma has_suffix_of_category source_file category :
  get_file_category source_file = Some category →
  pathlib.has_suffix (pathlib.name source_file) = true.
Proof.
  unfold get_file_category, pathlib.suffix, pathlib.suffix_of.
  by destruct (pathlib.has_suffix _).
Qed.

Lemma numbered_suffix source_file counter :
  pathlib.has_suffix (pathlib.name source_file) = true →
  pathlib.suffix_of (numbered_name source_file counter)
  = pathlib.suffix source_file.
Proof.
  intros Hs. unfold numbered_name, pathlib.stem, pathlib.suffix,
    pathlib.stem_of, pathlib.suffix_of at 2 3.
  rewrite Hs. set (nm := pathlib.name source_file) in *.
  unfold pathlib.has_suffix in Hs.
  apply andb_true_iff in Hs as [Hpos%Z.ltb_lt Hlt%Z.ltb_lt].
  set (i := PyStr.rfind "." nm) in *.
  destruct (drop_rfind_dot "." nm) as (rest & Hd & Hrest); [fold i; lia|].
  fold i in Hd. rewrite Hd.
  set (stem := PyStr.take (Z.to_nat i) nm).
  set (digits := PyStr.str_of_nat counter).
  assert (String.length (String "." rest) = String.length nm - Z.to_nat i)
    as Hlen by (rewrite <- Hd; apply drop_length).
  simpl in Hlen.
  assert (PyStr.rfind "." (stem +:+ "_" +:+ digits +:+ String "." rest)
          = Z.of_nat (String.length stem + 1 + String.length digits))
    as Hfind.
  { rewrite !rfind_app. simpl PyStr.rfind. rewrite Hrest. simpl.
    change (String.length "_") with 1.
    destruct (Z.leb_spec 0 (Z.of_nat (String.length digits) + 0)); [|lia].
    match goal with
    | |- context [(?a <=? ?b)%Z] => destruct (Z.leb_spec a b)
    end; lia. }
  unfold pathlib.suffix_of, pathlib.has_suffix. rewrite Hfind.
  rewrite !app_length. simpl String.length.
  destruct (Z.ltb_spec 0 (Z.of_nat (String.length stem + 1
                                    + String.length digits))); [|lia].
  destruct (Z.ltb_spec
              (Z.of_nat (String.length stem + 1 + String.length digits))
              (Z.of_nat (String.length stem
                         + (1 + (String.length digits
                                 + S (String.length rest)))) - 1));
    [|lia].
  simpl. rewrite Nat2Z.id.
  replace (stem +:+ "_" +:+ digits +:+ String "." rest)
    with ((stem +:+ "_" +:+ digits) +:+ String "." rest).
  - rewrite <- (drop_app_length (stem +:+ "_" +:+ digits)
                  (String "." rest)) at 2.
    f_equal. rewrite !app_length. simpl. lia.
  - by rewrite !app_assoc_str.
Qed.

(** A numbered link name keeps the extension of its source, so the link of
    a classified file falls in the same category as the file. *)
Theorem numbered_keeps_category (target_dir source_file : Path)
    (counter : nat) (category : string) :
  get_file_category source_file = Some category →
  pathlib.suffix (numbered target_dir source_file counter)
    = pathlib.suffix source_file
  ∧ get_file_category (numbered target_dir source_file counter)
    = Some category.
Proof.
  intros Hcat.
  assert (pathlib.suffix (numbered target_dir source_file counter)
          = pathlib.suffix source_file) as Hs.
  { unfold pathlib.suffix at 1, numbered.
    rewrite joinpath_name by apply numbered_name_nonempty.
    apply numbered_suffix. by eapply has_suffix_of_category. }
  split; [exact Hs|]. unfold get_file_category in *. by rewrite Hs.
Qed.

Lemma numbered_keeps_category_witness :
  get_file_category
    (numbered (mkPath "" "/" ["out"; "video"; "Clips"])
              (mkPath "C:" "\" ["Clips"; "Holiday.2019.MKV"]) 12)
  = Some "video".
Proof.
  apply (numbered_keeps_category _ _ _ "video"). reflexivity.
Defined.

(** ** Namespace, further *)

Lemma rfind_remove_char c s : PyStr.rfind c (PyStr.remove_char c s) = (-1)%Z.
Proof.
  induction s as [|a s IH]; [reflexivity|]. simpl.
  destruct (Ascii.eqb a c) eqn:E; [exact IH|]. simpl. by rewrite IH, E.
Qed.

Lemma rfind_remove_other c c' s :
  PyStr.rfind c s = (-1)%Z → PyStr.rfind c (PyStr.remove_char c' s) = (-1)%Z.
Proof.
  induction s as [|a s IH]; [reflexivity|]. simpl.
  destruct (Z.leb_spec 0 (PyStr.rfind c s)) as [|Hlt]; [lia|].
  destruct (Ascii.eqb a c) eqn:E; [lia|]. intros _.
  assert (PyStr.rfind c s = (-1)%Z) as Hs
    by (pose proof (rfind_bounds c s); lia).
  destruct (Ascii.eqb a c'); [by apply IH|].
  simpl. by rewrite (IH Hs), E.
Qed.

(** When the parent directory has no usable name the namespace is what is
    left of the drive once every colon and backslash is taken out: it
    contains neither character. *)
Theorem namespace_fallback_strips_separators (source_file : Path) :
  let parent_dir := pathlib.name (pathlib.parent source_file) in
  parent_dir = "" ∨ parent_dir = "\" ∨ parent_dir = "/" →
  parent_name source_file
    = PyStr.remove_char "\" (PyStr.remove_char ":" (drive source_file))
  ∧ PyStr.rfind ":" (parent_name source_file) = (-1)%Z
  ∧ PyStr.rfind "\" (parent_name source_file) = (-1)%Z.
Proof.
  intros parent_dir H.
  destruct (parent_name_cases source_file) as [_ Hfb].
  rewrite (Hfb H). split_and!; [reflexivity | |].
  - apply rfind_remove_other, rfind_remove_char.
  - apply rfind_remove_char.
Qed.

Lemma namespace_fallback_strips_separators_witness :
  parent_name (mkPath "C:" "\" ["photo.jpg"]) = "C".
Proof.
  destruct (namespace_fallback_strips_separators
              (mkPath "C:" "\" ["photo.jpg"])) as (H & _).
  - left. reflexivity.
  - exact H.
Defined.

(** ** Link materializer, further *)

Section MaterializerMore.

Context (os : Policy).
Implicit Types (fs : gmap Path node) (r : Run).

Lemma os_mkdir_new d fs fs' res p v :
  os_mkdir os d fs = (fs', res) → fs' !! p = Some v →
  fs !! p = Some v ∨ v = Directory.
Proof.
  intros [(_ & _ & -> & _) | (e & _ & -> & _)]%os_mkdir_cases Hp;
    [|by left].
  destruct (decide (p = d)) as [->|Hne].
  - rewrite lookup_insert_eq in Hp. injection Hp as <-. by right.
  - rewrite lookup_insert_ne in Hp by done. by left.
Qed.

Lemma mkdir_exist_ok_new d fs fs' res p v :
  mkdir_exist_ok os d fs = (fs', res) → fs' !! p = Some v →
  fs !! p = Some v ∨ v = Directory.
Proof.
  unfold mkdir_exist_ok. intros H Hp.
  destruct (os_mkdir os d fs) as [fs1 r1] eqn:E.
  assert (fs' = fs1) as ->.
  { destruct r1 as [[]|[]]; try (by injection H as <- _);
      by apply mkdir_except_OSError_contract in H as [-> _]. }
  by eapply os_mkdir_new.
Qed.

Lemma mkdir_parents_rev_new dr rt rnames fs fs' res p v :
  mkdir_parents_rev os dr rt rnames fs = (fs', res) → fs' !! p = Some v →
  fs !! p = Some v ∨ v = Directory.
Proof.
  revert fs fs' res. induction rnames as [|nm rparent IH];
    intros fs fs' res H Hp; simpl in H;
    destruct (os_mkdir os _ fs) as [fs1 r1] eqn:E.
  - assert (fs' = fs1) as ->.
    { destruct r1 as [[]|[]]; try (by injection H as <- _);
        by apply mkdir_except_OSError_contract in H as [-> _]. }
    by eapply os_mkdir_new.
  - destruct r1 as [e|[]].
    + assert (fs1 = fs) as ->.
      { by apply os_mkdir_cases in E as [(? & _) | (? & _ & -> & _)]. }
      destruct e; try (apply mkdir_except_OSError_contract in H as [-> _];
                       by left).
      unfold bind in H.
      destruct (mkdir_parents_rev os dr rt rparent fs) as [fs2 r2] eqn:E2.
      destruct r2 as [e2|[]].
      * injection H as <- _. by eapply IH.
      * destruct (mkdir_exist_ok_new _ _ _ _ _ _ H Hp) as [Hp2 | ->];
          [by eapply IH | by right].
    + injection H as <- _. by eapply os_mkdir_new.
Qed.

Lemma mkdir_parents_new d fs fs' res p v :
  mkdir_parents os d fs = (fs', res) → fs' !! p = Some v →
  fs !! p = Some v ∨ v = Directory.
Proof. apply mkdir_parents_rev_new. Qed.

Lemma link_one_new c f out dry fs fs2 entry p v :
  link_one os c f out dry fs = (fs2, entry) → fs2 !! p = Some v →
  fs !! p = Some v ∨ v = Directory ∨ v = SymLink f.
Proof.
  destruct dry.
  { rewrite link_one_dry. intros [= <- _] Hp. by left. }
  intros (_ & _ & _ & [(e & Hmk & _) | (fs1 & Hmk & _ & _ & Hout)])
    %link_one_live Hp.
  { destruct (mkdir_parents_new _ _ _ _ _ _ Hmk Hp); auto. }
  assert (fs1 !! p = Some v ∨ v = SymLink f) as [Hp1 | ->]; [|  |by auto].
  { destruct Hout as [(_ & _ & -> & _) | [(_ & -> & _) | (_ & _ & -> & _)]];
      try (by left).
    destruct (decide (p = free_target fs1 (target_dir_of c f out) f))
      as [->|Hne].
    - rewrite lookup_insert_eq in Hp. injection Hp as <-. by right.
    - rewrite lookup_insert_ne in Hp by done. by left. }
  destruct (mkdir_parents_new _ _ _ _ _ _ Hmk Hp1); auto.
Qed.

Lemma link_one_fields c f out dry fs :
  e_category (link_one os c f out dry fs).2 = c
  ∧ e_source (link_one os c f out dry fs).2 = f.
Proof.
  destruct dry; [by rewrite link_one_dry|].
  destruct (link_one os c f out false fs) as [fs2 entry] eqn:E.
  by apply link_one_live in E as (_ & ? & ? & _).
Qed.

Lemma run_jobs_new out dry js r p v :
  r_fs (run_jobs os out dry js r) !! p = Some v →
  r_fs r !! p = Some v ∨ v = Directory
  ∨ ∃ c src, (c, src) ∈ js ∧ v = SymLink src.
Proof.
  revert r. induction js as [|[c f] js IH]; intros r Hp; [by left|].
  simpl in Hp. apply IH in Hp as [Hp | [-> | (c' & src & Hin & ->)]].
  - rewrite step_unfold in Hp. simpl in Hp.
    destruct (link_one os c f out dry (r_fs r)) as [fs2 entry] eqn:E.
    destruct (link_one_new _ _ _ _ _ _ _ _ _ E Hp) as [? | [-> | ->]];
      [by left | by right; left |].
    right; right. exists c, f. split; [left | reflexivity].
  - by right; left.
  - right; right. exists c', src. split; [by right | reflexivity].
Qed.

Lemma elem_of_jobs inventory c f :
  (c, f) ∈ jobs inventory ↔ inventoried inventory c f.
Proof.
  unfold jobs, inventoried. rewrite list_elem_of_bind. split.
  - intros ([c' files] & Hin & Hcf). simpl in Hin.
    apply list_elem_of_fmap in Hin as (f' & [= -> ->] & Hf). eauto.
  - intros (files & Hcf & Hf). exists (c, files). split; [|exact Hcf].
    simpl. apply list_elem_of_fmap. eauto.
Qed.

(** A live pass never changes or removes what is in the filesystem, the
    source files included: every entry it finds is there afterwards,
    unchanged, and every entry it adds is a directory or a symbolic link to
    a file of the inventory. *)
Theorem live_pass_only_adds
    (files_by_category : list (string * list Path)) (output_dir : Path)
    (fs : gmap Path node) :
  let r := create_symbolic_links os files_by_category output_dir false fs in
  (∀ p v, fs !! p = Some v → r_fs r !! p = Some v)
  ∧ (∀ p v, fs !! p = None → r_fs r !! p = Some v →
       v = Directory
       ∨ ∃ category source_file,
           inventoried files_by_category category source_file
           ∧ v = SymLink source_file).
Proof.
  simpl. unfold create_symbolic_links. rewrite link_categories_jobs. split.
  - intros p v Hp. eapply lookup_weaken; [exact Hp|].
    apply (run_jobs_mono os output_dir false (jobs files_by_category)
             (mkRun fs (mkStats 0 0 0) [])).
  - intros p v Hnone Hp.
    apply run_jobs_new in Hp as [Hp | [-> | (c & src & Hin & ->)]].
    + simpl in Hp. congruence.
    + by left.
    + right. exists c, src. split; [by apply elem_of_jobs | reflexivity].
Qed.

Lemma created_links_invariant output_dir js fs :
  let r := run_jobs os output_dir false js (mkRun fs (mkStats 0 0 0) []) in
  fs ⊆ r_fs r
  ∧ (∀ entry, entry ∈ r_log r → e_outcome entry = Created →
       ∃ t, e_target entry = Some t ∧ fs !! t = None
            ∧ r_fs r !! t = Some (SymLink (e_source entry)))
  ∧ created (r_stats r) = length (created_targets (r_log r)).
Proof.
  simpl. apply (run_jobs_ind os (fun r =>
    fs ⊆ r_fs r
    ∧ (∀ entry, entry ∈ r_log r → e_outcome entry = Created →
         ∃ t, e_target entry = Some t ∧ fs !! t = None
              ∧ r_fs r !! t = Some (SymLink (e_source entry)))
    ∧ created (r_stats r) = length (created_targets (r_log r)))).
  2: { simpl. split_and!; [done | | done]. by intros entry ?%elem_of_nil. }
  intros c r f (Hsub & Hlinks & Hcount).
  rewrite step_unfold. simpl.
  pose proof (link_one_fields c f output_dir false (r_fs r)) as [_ Hsrc].
  destruct (link_one os c f output_dir false (r_fs r)) as [fs2 entry] eqn:E.
  simpl in *. pose proof (link_one_mono _ _ _ _ _ _ _ _ E) as Hmono.
  split_and!.
  - by etrans.
  - intros entry' [Hold | ->%list_elem_of_singleton]%elem_of_app Hcr.
    + destruct (Hlinks entry' Hold Hcr) as (t & Ht & Hfree & Hl).
      exists t. split_and!; [done | done |]. by eapply lookup_weaken.
    + destruct (link_one_created _ _ _ _ _ _ _ E Hcr) as (t & Ht & Hfree & Hl).
      exists t. split_and!; [done | | by rewrite Hsrc].
      destruct (fs !! t) as [v|] eqn:Et; [|done].
      by rewrite (lookup_weaken _ _ _ _ Et Hsub) in Hfree.
  - rewrite created_targets_snoc, length_app.
    destruct (e_outcome entry) eqn:Ho; simpl; try lia.
    destruct (link_one_created _ _ _ _ _ _ _ E Ho) as (t & -> & _).
    simpl. lia.
Qed.

(** Every link counted as created is in the resulting filesystem, at the
    target of its trace entry, which was free before the pass, and points
    at its source; the [created] counter is the number of these links. *)
Theorem created_links_are_there
    (files_by_category : list (string * list Path)) (output_dir : Path)
    (fs : gmap Path node) :
  let r := create_symbolic_links os files_by_category output_dir false fs in
  (∀ entry, entry ∈ r_log r → e_outcome entry = Created →
     ∃ t, e_target entry = Some t ∧ fs !! t = None
          ∧ r_fs r !! t = Some (SymLink (e_source entry)))
  ∧ created (r_stats r) = length (created_targets (r_log r)).
Proof.
  simpl. unfold create_symbolic_links. rewrite link_categories_jobs.
  by destruct (created_links_invariant output_dir
                 (jobs files_by_category) fs) as (_ & ? & ?).
Qed.

Lemma mkdir_parents_occupied d fs :
  is_Some (fs !! d) → is_dir fs d = false →
  mkdir_parents os d fs = (fs, inl FileExistsError).
Proof.
  intros [v Hv] Hnd. unfold mkdir_parents.
  assert (∀ rnames, mkPath (drive d) (root d) (rev rnames) = d →
            mkdir_parents_rev os (drive d) (root d) rnames fs
            = (fs, inl FileExistsError)) as H.
  { intros rnames Hd.
    assert (os_mkdir os d fs = (fs, inl FileExistsError)) as Hmk
      by (unfold os_mkdir; by rewrite Hv).
    assert (mkdir_except_OSError d FileExistsError fs
            = (fs, inl FileExistsError)) as Hex
      by (unfold mkdir_except_OSError; by rewrite Hnd).
    destruct rnames; simpl in *; rewrite Hd, Hmk; exact Hex. }
  apply H. rewrite rev_involutive. by destruct d.
Qed.

(** When something that is not a directory already sits where the
    namespace directory should be, [mkdir] raises [FileExistsError] and the
    file is counted as skipped, not as failed: no link is planned and the
    filesystem is left as it is. *)
Theorem occupied_namespace_is_skipped (category : string)
    (source_file output_dir : Path) (fs : gmap Path node) :
  let dir := target_dir_of category source_file output_dir in
  is_Some (fs !! dir) → is_dir fs dir = false →
  link_one os category source_file output_dir false fs
  = (fs, mkEntry category source_file None Skipped).
Proof.
  intros dir Hsome Hnd. unfold link_one, create_hybrid_structure, bind.
  fold dir. by rewrite (mkdir_parents_occupied dir fs Hsome Hnd).
Qed.

End MaterializerMore.

(** In a dry run every file is planned against the filesystem as it was
    found, which the run leaves as it is: the line reported for a file is
    the one of the planner on the initial filesystem, whatever the other
    files of the inventory are. It names the target, as would-be created,
    when the planner returns one; the existence check of that target
    answered [False]. When an existence check of the planner raises, the
    file is reported as failed, with no target. *)
Theorem preview_plans_on_initial_filesystem (env : Env)
    (files_by_category : list (string * list Path)) (output_dir : Path)
    (fs : gmap Path node) :
  let preview :=
    create_symbolic_links_env env files_by_category output_dir true fs in
  r_fs preview = fs
  ∧ r_log preview
    = (fun job =>
         match
           plan_target env fs (target_dir_of job.1 job.2 output_dir) job.2
         with
         | inr target_path =>
             mkEntry job.1 job.2 (Some target_path) Created
         | inl e => mkEntry job.1 job.2 None (Failed OSError)
         end) <$> jobs files_by_category
  ∧ Forall (fun entry =>
              match e_target entry with
              | Some target_path =>
                  e_outcome entry = Created
                  ∧ Path_exists env fs target_path = inr false
              | None => e_outcome entry = Failed OSError
              end) (r_log preview).
Proof.
  simpl. unfold create_symbolic_links_env.
  rewrite link_categories_env_jobs.
  destruct (run_jobs_env_dry env output_dir (jobs files_by_category)
              (mkRun fs (mkStats 0 0 0) [])) as (Hfs & Hlog & _).
  simpl in Hfs, Hlog. rewrite Hfs, Hlog.
  assert (∀ job : string * Path,
            preview_entry job.1 job.2
              (plan_target env fs (target_dir_of job.1 job.2 output_dir)
                 job.2)
            = match
                plan_target env fs (target_dir_of job.1 job.2 output_dir)
                  job.2
              with
              | inr target_path =>
                  mkEntry job.1 job.2 (Some target_path) Created
              | inl e => mkEntry job.1 job.2 None (Failed OSError)
              end) as Hentry.
  { intros job. unfold preview_entry.
    destruct (plan_target env fs _ job.2) as [e|t] eqn:E; [|reflexivity].
    apply plan_target_error in E. by subst e. }
  split_and!; [done | |].
  - apply list_fmap_ext. intros _ job _. apply Hentry.
  - apply Forall_fmap, Forall_forall. intros job _. simpl.
    rewrite Hentry.
    destruct (plan_target env fs _ job.2) as [e|t] eqn:E; simpl;
      [reflexivity|].
    split; [reflexivity|]. by eapply plan_target_not_exists.
Qed.

Lemma occupied_namespace_is_skipped_witness :
  let os := mkPolicy (fun _ => false) (fun _ => false) in
  let fs : gmap Path node :=
    <[mkPath "" "/" ["out"; "pictures"; "Photos"] := RegularFile]> ∅ in
  e_outcome
    (link_one os "pictures" (mkPath "" "/" ["data"; "Photos"; "img.jpg"])
       (mkPath "" "/" ["out"]) false fs).2
  = Skipped.
Proof.
  intros os fs.
  rewrite (occupied_namespace_is_skipped os "pictures"
             (mkPath "" "/" ["data"; "Photos"; "img.jpg"])
             (mkPath "" "/" ["out"]) fs).
  - reflexivity.
  - vm_compute. eauto.
  - vm_compute. reflexivity.
Defined.

(** ** Tree scanner, further *)

Lemma inventoried_append_inv category file_path found c p :
  inventoried (append_found category file_path found) c p →
  inventoried found c p ∨ (c = category ∧ p = file_path).
Proof.
  induction found as [|[c0 files0] rest IH]; simpl;
    intros (files & Hin & Hp).
  - apply list_elem_of_singleton in Hin as [= -> ->].
    apply list_elem_of_singleton in Hp as ->. by right.
  - case_decide as Hc.
    + subst c0. apply elem_of_cons in Hin as [[= -> ->] | Hin].
      * apply elem_of_app in Hp as [Hp | ->%list_elem_of_singleton];
          [|by right].
        left. exists files0. split; [left | exact Hp].
      * left. exists files. split; [by right | exact Hp].
    + apply elem_of_cons in Hin as [[= -> ->] | Hin].
      * left. exists files0. split; [left | exact Hp].
      * destruct IH as [(files' & Hin' & Hp') | ?]; [by exists files | |by right].
        left. exists files'. split; [by right | exact Hp'].
Qed.

Section ScannerMore.

Context (progress_callback : option Callback).

(** Whatever is inventoried while a file is processed was inventoried
    before or is that file, classified and not flagged. *)
Lemma scan_file_inv root_path f s st c p :
  inventoried
    (found_files (scan_file progress_callback root_path (f, s) st).1) c p →
  inventoried (found_files st) c p
  ∨ (p = root_path /: f ∧ is_system_file s = false
     ∧ get_file_category p = Some c).
Proof.
  unfold scan_file. simpl.
  destruct (is_system_file s) eqn:Es; [by left|].
  destruct (get_file_category (root_path /: f)) as [category|] eqn:Ec;
    [|by left].
  assert (inventoried
            (append_found category (root_path /: f) (found_files st)) c p →
          inventoried (found_files st) c p
          ∨ (p = root_path /: f ∧ false = false
             ∧ get_file_category p = Some c)) as H.
  { intros [? | [-> ->]]%inventoried_append_inv; [by left | by right]. }
  destruct progress_callback as [callback|]; [|exact H].
  simpl. destruct (_ =? _)%nat; [|exact H].
  destruct (callback _ _ _); exact H.
Qed.

Lemma scan_files_inv root_path files st c p :
  inventoried
    (found_files (scan_files progress_callback root_path files st).1) c p →
  inventoried (found_files st) c p
  ∨ ∃ f s, (f, s) ∈ files ∧ p = root_path /: f
           ∧ is_system_file s = false ∧ get_file_category p = Some c.
Proof.
  revert st. induction files as [|[f0 s0] rest IH]; intros st H;
    [by left|].
  simpl in H.
  destruct (scan_file progress_callback root_path (f0, s0) st)
    as [st' res] eqn:E.
  assert (inventoried (found_files st') c p →
          inventoried (found_files st) c p
          ∨ ∃ f s, (f, s) ∈ (f0, s0) :: rest ∧ p = root_path /: f
                   ∧ is_system_file s = false
                   ∧ get_file_category p = Some c) as Hstep.
  { intros H'. pose proof (scan_file_inv root_path f0 s0 st c p) as Hi.
    rewrite E in Hi. destruct (Hi H') as [? | (-> & ? & ?)]; [by left|].
    right. exists f0, s0. split_and!; [left | done..]. }
  destruct res as [e|[]]; [by apply Hstep|].
  apply IH in H as [H | (f & s & Hin & Hrest)]; [by apply Hstep|].
  right. exists f, s. split; [by right | exact Hrest].
Qed.

Lemma walk_dirs_inv root_path ds st c p :
  Forall (fun d => ∀ root_path st,
            inventoried
              (found_files (walk progress_callback root_path d.2 st).1) c p →
            inventoried (found_files st) c p
            ∨ ∃ s, reachable root_path d.2 p s ∧ is_system_file s = false
                   ∧ get_file_category p = Some c) ds →
  inventoried
    (found_files (walk_dirs (walk progress_callback) root_path ds st).1) c p →
  inventoried (found_files st) c p
  ∨ ∃ d sub s, (d, sub) ∈ ds
               ∧ should_exclude_directory (root_path /: d) = false
               ∧ reachable (root_path /: d) sub p s
               ∧ is_system_file s = false ∧ get_file_category p = Some c.
Proof.
  intros Hall. revert st.
  induction Hall as [|[d0 sub0] ds Hd _ IH]; intros st H; [by left|].
  simpl in H, Hd.
  destruct (should_exclude_directory (root_path /: d0)) eqn:Eex.
  { apply IH in H as [? | (d & sub & s & Hin & Hrest)]; [by left|].
    right. exists d, sub, s. split; [by right | exact Hrest]. }
  destruct (walk progress_callback (root_path /: d0) sub0 st)
    as [st' res] eqn:E.
  assert (inventoried (found_files st') c p →
          inventoried (found_files st) c p
          ∨ ∃ d sub s, (d, sub) ∈ (d0, sub0) :: ds
                       ∧ should_exclude_directory (root_path /: d) = false
                       ∧ reachable (root_path /: d) sub p s
                       ∧ is_system_file s = false
                       ∧ get_file_category p = Some c) as Hstep.
  { intros H'. specialize (Hd (root_path /: d0) st). rewrite E in Hd.
    destruct (Hd H') as [? | (s & ? & ? & ?)]; [by left|].
    right. exists d0, sub0, s. split_and!; [left | done..]. }
  destruct res as [e|[]]; [by apply Hstep|].
  apply IH in H as [H | (d & sub & s & Hin & Hrest)]; [by apply Hstep|].
  right. exists d, sub, s. split; [by right | exact Hrest].
Qed.

Lemma walk_inv t c p :
  ∀ root_path st,
    inventoried (found_files (walk progress_callback root_path t st).1) c p →
    inventoried (found_files st) c p
    ∨ ∃ s, reachable root_path t p s ∧ is_system_file s = false
           ∧ get_file_category p = Some c.
Proof.
  induction t as [|dirs files IH] using dirtree_nested_ind;
    intros root_path st H; [by left|].
  simpl in H.
  destruct (scan_files progress_callback root_path files st)
    as [st1 res] eqn:E.
  assert (inventoried (found_files st1) c p →
          inventoried (found_files st) c p
          ∨ ∃ s, reachable root_path (Listing dirs files) p s
                 ∧ is_system_file s = false
                 ∧ get_file_category p = Some c) as Hfiles.
  { intros H'. pose proof (scan_files_inv root_path files st c p) as Hi.
    rewrite E in Hi.
    destruct (Hi H') as [? | (f & s & Hin & -> & ? & ?)]; [by left|].
    right. exists s. split_and!; [by apply reach_file | done..]. }
  destruct res as [e|[]]; [by apply Hfiles|].
  apply walk_dirs_inv in H as [H | (d & sub & s & Hin & Hex & Hr & ? & ?)];
    [by apply Hfiles | | exact IH].
  right. exists s. split_and!; [by eapply reach_dir | done..].
Qed.

Lemma scan_drives_inv drives st c p :
  inventoried (found_files (scan_drives progress_callback drives st)) c p →
  inventoried (found_files st) c p
  ∨ ∃ drive t s, (drive, t) ∈ drives ∧ reachable drive t p s
                 ∧ is_system_file s = false ∧ get_file_category p = Some c.
Proof.
  revert st. induction drives as [|[drive t] rest IH]; intros st H;
    [by left|].
  simpl in H. apply IH in H as [H | (d & t' & s & Hin & Hrest)].
  - apply walk_inv in H as [? | (s & ? & ? & ?)]; [by left|].
    right. exists drive, t, s. split_and!; [left | done..].
  - right. exists d, t', s. split; [by right | exact Hrest].
Qed.

(** Nothing gets into the inventory that should not be there: a file
    listed under a category is a file that the walk of one of the roots
    reaches (no directory above it is pruned or unreadable), it is not
    flagged as a system file, and the category is the one of its
    extension. This holds with any progress observer. *)
Theorem scan_inventory_sound (drives : list (Path * dirtree))
    (category : string) (file_path : Path) :
  inventoried (scan_for_files progress_callback drives) category file_path →
  ∃ drive t s,
    (drive, t) ∈ drives ∧ reachable drive t file_path s
    ∧ is_system_file s = false
    ∧ get_file_category file_path = Some category.
Proof.
  unfold scan_for_files. intros [H | H]%scan_drives_inv; [|exact H].
  destruct H as (files & Hin & _). simpl in Hin. by apply elem_of_nil in Hin.
Qed.

End ScannerMore.

Lemma scan_inventory_sound_witness :
  let drive := mkPath "" "/" ["data"] in
  let t :=
    Listing [(".git", Listing [] [("logo.png", StAttributes 0)]);
             ("Photos", Listing [] [("img.jpg", StAttributes 32);
                                    ("pagefile.jpg", StAttributes 6)])]
            [("notes.txt", StOSError)] in
  ∃ s, reachable drive t (drive /: "Photos" /: "img.jpg") s
       ∧ is_system_file s = false.
Proof.
  intros drive t.
  destruct (scan_inventory_sound None [(drive, t)] "pictures"
              (drive /: "Photos" /: "img.jpg"))
    as (drive' & t' & s & Hin & Hr & Hsys & _).
  - apply inventoried_Exists.
    apply (bool_decide_unpack (Exists _ _)). by vm_compute.
  - apply list_elem_of_singleton in Hin as [= -> ->]. by exists s.
Defined.

(** ** The inventory as a dictionary *)

Lemma append_found_keys category file_path found :
  (append_found category file_path found).*1
  = if bool_decide (category ∈ found.*1) then found.*1
    else found.*1 ++ [category].
Proof.
  induction found as [|[c files] rest IH]; [reflexivity|].
  simpl append_found.
  destruct (decide (c = category)) as [->|Hc]; rewrite !fmap_cons;
    simpl fst.
  - rewrite bool_decide_eq_true_2 by left. reflexivity.
  - rewrite IH.
    destruct (bool_decide_reflect (category ∈ rest.*1)) as [Hin|Hnin].
    + rewrite bool_decide_eq_true_2 by (by right). reflexivity.
    + rewrite bool_decide_eq_false_2; [reflexivity|].
      intros [? | ?]%elem_of_cons; [by subst | done].
Qed.

Lemma append_found_total category file_path found :
  total_files (append_found category file_path found)
  = S (total_files found).
Proof.
  unfold total_files.
  induction found as [|[c files] rest IH]; [reflexivity|]. simpl.
  destruct (decide (c = category)) as [->|Hc]; simpl.
  - rewrite length_app. simpl. lia.
  - rewrite IH. lia.
Qed.

Lemma append_found_Forall (P : string * list Path → Prop)
    category file_path found :
  Forall P found →
  (∀ files, P (category, files) → P (category, files ++ [file_path])) →
  P (category, [file_path]) →
  Forall P (append_found category file_path found).
Proof.
  intros Hall Hgrow Hnew.
  induction Hall as [|[c files] rest Hc Hrest IH]; simpl.
  - by constructor.
  - destruct (decide (c = category)) as [->|Hne]; constructor; auto.
Qed.

Lemma append_found_well_formed category file_path found :
  category ∈ FILE_CATEGORIES.*1 →
  well_formed_inventory found →
  well_formed_inventory (append_found category file_path found).
Proof.
  intros Hcat [Hnd Hall]. split.
  - rewrite append_found_keys. case_bool_decide as Hin; [exact Hnd|].
    apply NoDup_app. split_and!; [exact Hnd | | apply NoDup_singleton].
    intros c Hc ->%list_elem_of_singleton. done.
  - assert (Forall (fun cf => cf.2 ≠ [] ∧ cf.1 ∈ FILE_CATEGORIES.*1)
              (append_found category file_path found)) as HF.
    { apply append_found_Forall.
      - apply Forall_forall. intros [c files] Hin. by apply Hall.
      - intros files [_ ?]. split; [by destruct files | done].
      - by split. }
    intros c files Hin.
    by apply (proj1 (Forall_forall _ _) HF (c, files)).
Qed.

Lemma get_file_category_key file_path category :
  get_file_category file_path = Some category →
  category ∈ FILE_CATEGORIES.*1.
Proof.
  intros (exts & Hin & _)%lookup_category_Some.
  apply list_elem_of_fmap. by exists (category, exts).
Qed.

Section ScanInvariants.

Context (progress_callback : option Callback).

(** A property of the scan state that every processed file keeps is kept
    by the scan of any trees. *)
Lemma scan_files_ind (P : ScanState → Prop) :
  (∀ root_path file st,
     P st → P (scan_file progress_callback root_path file st).1) →
  ∀ root_path files st,
    P st → P (scan_files progress_callback root_path files st).1.
Proof.
  intros Hstep root_path files.
  induction files as [|file rest IH]; intros st H; [exact H|].
  simpl. pose proof (Hstep root_path file st H) as H1.
  destruct (scan_file progress_callback root_path file st) as [st' [e|[]]];
    [exact H1 | by apply IH].
Qed.

Lemma walk_ind (P : ScanState → Prop) :
  (∀ root_path file st,
     P st → P (scan_file progress_callback root_path file st).1) →
  ∀ t root_path st, P st → P (walk progress_callback root_path t st).1.
Proof.
  intros Hstep t.
  induction t as [|dirs files IH] using dirtree_nested_ind;
    intros root_path st H; [exact H|].
  simpl. pose proof (scan_files_ind P Hstep root_path files st H) as H1.
  destruct (scan_files progress_callback root_path files st)
    as [st1 [e|[]]]; [exact H1|].
  clear H. revert st1 H1.
  induction IH as [|[d sub] ds Hd _ IHds]; intros st1 H1; [exact H1|].
  simpl. destruct (should_exclude_directory _); [by apply IHds|].
  pose proof (Hd (root_path /: d) st1 H1) as H2. simpl in H2.
  destruct (walk progress_callback (root_path /: d) sub st1)
    as [st' [e|[]]]; [exact H2 | by apply IHds].
Qed.

Lemma scan_drives_ind (P : ScanState → Prop) :
  (∀ root_path file st,
     P st → P (scan_file progress_callback root_path file st).1) →
  ∀ drives st, P st → P (scan_drives progress_callback drives st).
Proof.
  intros Hstep drives.
  induction drives as [|[drive t] rest IH]; intros st H; [exact H|].
  simpl. apply IH. by apply walk_ind.
Qed.

Lemma scan_file_structure root_path file st :
  well_formed_inventory (found_files st)
  ∧ scanned_count st = total_files (found_files st) →
  let st' := (scan_file progress_callback root_path file st).1 in
  well_formed_inventory (found_files st')
  ∧ scanned_count st' = total_files (found_files st').
Proof.
  intros [Hwf Hcount]. unfold scan_file.
  destruct (is_system_file file.2); [by split|].
  destruct (get_file_category _) as [category|] eqn:Ec; [|by split].
  assert (well_formed_inventory
            (append_found category (root_path /: file.1) (found_files st))
          ∧ S (scanned_count st)
            = total_files
                (append_found category (root_path /: file.1)
                   (found_files st))) as H.
  { split.
    - apply append_found_well_formed; [|exact Hwf].
      by eapply get_file_category_key.
    - by rewrite append_found_total, Hcount. }
  destruct progress_callback as [callback|]; [|exact H].
  simpl. destruct (_ =? _)%nat; [|exact H].
  destruct (callback _ _ _); exact H.
Qed.

(** The inventory returned by a scan has the shape of the dictionary the
    code builds: each category at most once, each one a category of the
    table, none with an empty list; and the number of files it holds is
    the count the scanner reports, so it is empty exactly when that count
    is zero. *)
Theorem scan_inventory_structure (drives : list (Path * dirtree)) :
  let st := scan_drives progress_callback drives (mkScan [] 0 0) in
  well_formed_inventory (scan_for_files progress_callback drives)
  ∧ scanned_count st
    = total_files (scan_for_files progress_callback drives)
  ∧ (scan_for_files progress_callback drives = [] ↔ scanned_count st = 0).
Proof.
  simpl. unfold scan_for_files.
  pose proof (scan_drives_ind
                (fun st => well_formed_inventory (found_files st)
                           ∧ scanned_count st = total_files (found_files st))
                scan_file_structure drives (mkScan [] 0 0)) as H.
  destruct H as [Hwf Hcount].
  { split; [|reflexivity]. split; [constructor|].
    by intros c files ?%elem_of_nil. }
  split_and!; [exact Hwf | exact Hcount |].
  rewrite Hcount.
  destruct (found_files (scan_drives progress_callback drives (mkScan [] 0 0)))
    as [|[c files] rest] eqn:E; [done|].
  split; [done|]. intros Hz. exfalso.
  destruct Hwf as [_ Hall]. destruct (Hall c files) as [Hne _]; [left|].
  unfold total_files in Hz. simpl in Hz. destruct files; [done|].
  simpl in Hz. lia.
Qed.

End ScanInvariants.

(** ** The cadence of the progress observer *)

Lemma positive_multiple_of_100 n :
  (S n mod 100 =? 0)%nat = true → ∃ k, S n = 100 * S k.
Proof.
  intros H%Nat.eqb_eq. apply Nat.Div0.div_exact in H.
  destruct (S n / 100) as [|k] eqn:E; [lia|]. by exists k.
Qed.

Lemma scan_file_call_result progress_callback root_path file st :
  scan_file progress_callback root_path file st
  = if is_system_file file.2 then
      (mkScan (found_files st) (scanned_count st) (S (skipped_count st)),
       inr ())
    else
      match get_file_category (root_path /: file.1) with
      | Some category =>
          let st' :=
            mkScan (append_found category (root_path /: file.1)
                      (found_files st))
                   (S (scanned_count st)) (skipped_count st) in
          if (S (scanned_count st) mod 100 =? 0)%nat then
            match call_result progress_callback (S (scanned_count st))
                    category (root_path /: file.1) with
            | Some e => (st', inl e)
            | None => (st', inr ())
            end
          else (st', inr ())
      | None => (st, inr ())
      end.
Proof.
  unfold scan_file.
  destruct (is_system_file file.2); [reflexivity|].
  destruct (get_file_category _) as [category|]; [|reflexivity].
  destruct progress_callback as [callback|]; simpl; [reflexivity|].
  by destruct (_ =? _)%nat.
Qed.

Section Cadence.

Context (cb1 cb2 : option Callback).
Hypothesis agree :
  ∀ k category file_path,
    call_result cb1 (100 * S k) category file_path
    = call_result cb2 (100 * S k) category file_path.

Lemma scan_file_cadence root_path file st :
  scan_file cb1 root_path file st = scan_file cb2 root_path file st.
Proof.
  rewrite !scan_file_call_result.
  destruct (is_system_file file.2); [reflexivity|].
  destruct (get_file_category _) as [category|]; [|reflexivity].
  destruct ((S (scanned_count st) mod 100 =? 0)%nat) eqn:E; [|reflexivity].
  destruct (positive_multiple_of_100 _ E) as [k Hk].
  by rewrite Hk, agree.
Qed.

Lemma scan_files_cadence root_path files st :
  scan_files cb1 root_path files st = scan_files cb2 root_path files st.
Proof.
  revert st. induction files as [|file rest IH]; intros st; [reflexivity|].
  simpl. rewrite scan_file_cadence.
  destruct (scan_file cb2 root_path file st) as [st' [e|[]]];
    [reflexivity | apply IH].
Qed.

Lemma walk_cadence t :
  ∀ root_path st, walk cb1 root_path t st = walk cb2 root_path t st.
Proof.
  induction t as [|dirs files IH] using dirtree_nested_ind;
    intros root_path st; [reflexivity|].
  simpl. rewrite scan_files_cadence.
  destruct (scan_files cb2 root_path files st) as [st1 [e|[]]];
    [reflexivity|].
  revert st1. induction IH as [|[d sub] ds Hd _ IHds]; intros st1;
    [reflexivity|].
  simpl. destruct (should_exclude_directory _); [apply IHds|].
  simpl in Hd. rewrite Hd.
  destruct (walk cb2 (root_path /: d) sub st1) as [st' [e|[]]];
    [reflexivity | apply IHds].
Qed.

(** The progress observer is called at every hundredth classified file and
    at no other time: two observers that do the same at the counts 100,
    200, 300, ... give the same scan. In particular an observer that raises
    at none of these counts changes nothing, and taking it away changes
    nothing. *)
Theorem observer_cadence (drives : list (Path * dirtree)) (st : ScanState) :
  scan_drives cb1 drives st = scan_drives cb2 drives st
  ∧ scan_for_files cb1 drives = scan_for_files cb2 drives.
Proof.
  assert (∀ st, scan_drives cb1 drives st = scan_drives cb2 drives st) as H.
  { induction drives as [|[drive t] rest IH]; intros st'; [reflexivity|].
    simpl. by rewrite walk_cadence, IH. }
  split; [apply H|]. unfold scan_for_files. by rewrite H.
Qed.

End Cadence.

Lemma observer_cadence_witness :
  let callback : Callback :=
    fun n _ _ => if (n mod 100 =? 0)%nat then None else Some Exception in
  let drives :=
    [(mkPath "" "/" ["data"],
      Listing [] [("a.jpg", StAttributes 0); ("b.mp3", StOSError)])] in
  scan_for_files (Some callback) drives = scan_for_files None drives.
Proof.
  intros callback drives.
  apply (observer_cadence (Some callback) None); [|exact (mkScan [] 0 0)].
  intros k category file_path. unfold call_result, callback.
  replace (100 * S k) with (S k * 100) by lia.
  by rewrite Nat.Div0.mod_mul.
Defined.

(** ** Scanning below an excluded directory *)

Lemma parts_joinpath path seg part :
  part ∈ pathlib.parts path → part ∈ pathlib.parts (path /: seg).
Proof.
  unfold pathlib.joinpath. case_decide; [done|].
  unfold pathlib.parts, pathlib.anchor. simpl.
  case_decide.
  - intros ?. apply elem_of_app. by left.
  - intros [-> | ?]%elem_of_cons; [left | right].
    apply elem_of_app. by left.
Qed.

(** The exclusion test looks at every component of the full path, those of
    the scanned root included: when the root itself lies in or below a
    directory of the exclusion list, each of its sub-directories is pruned
    and the inventory holds nothing but files that lie directly in the
    root. *)
Theorem scan_below_excluded_root (progress_callback : option Callback)
    (drive : Path) (dirs : list (string * dirtree))
    (files : list (string * stat_result)) (part category : string)
    (file_path : Path) :
  part ∈ pathlib.parts drive →
  PyStr.lower part ∈ EXCLUDED_DIRS →
  inventoried (scan_for_files progress_callback [(drive, Listing dirs files)])
              category file_path →
  ∃ f s, (f, s) ∈ files ∧ file_path = drive /: f.
Proof.
  intros Hpart Hex H. unfold scan_for_files in H.
  apply scan_drives_inv in H as [(fl & Hin & _) | H].
  { simpl in Hin. by apply elem_of_nil in Hin. }
  destruct H as (drive' & t & s & Hin & Hr & _).
  apply list_elem_of_singleton in Hin as [= -> ->].
  inversion Hr as [? ? ? f s' Hf | ? ? ? d sub ? ? Hd Hnot Hsub]; subst.
  - by exists f, s.
  - rewrite (excluded_part (drive /: d) part) in Hnot; [discriminate| |done].
    by apply parts_joinpath.
Qed.

Lemma scan_below_excluded_root_witness :
  let drive := mkPath "" "/" ["tmp"; "work"] in
  let dirs := [("Photos", Listing [] [("img.jpg", StAttributes 0)])] in
  let files := [("notes.txt", StAttributes 0)] in
  (¬ inventoried (scan_for_files None [(drive, Listing dirs files)])
       "pictures" (drive /: "Photos" /: "img.jpg"))
  ∧ ∃ f s, (f, s) ∈ files ∧ drive /: "notes.txt" = drive /: f.
Proof.
  intros drive dirs files. split.
  - intros H%inventoried_Exists. revert H.
    apply (bool_decide_unpack (¬ Exists _ _)). by vm_compute.
  - apply (scan_below_excluded_root None drive dirs files "tmp" "text").
    + right. left.
    + apply (bool_decide_unpack _). by vm_compute.
    + apply inventoried_Exists.
      apply (bool_decide_unpack (Exists _ _)). by vm_compute.
Defined.

(** ** Drives *)

Lemma all_drives_NoDup : NoDup (drive_of_letter <$> ascii_uppercase).
Proof. apply (bool_decide_unpack _). by vm_compute. Qed.

(** [get_all_drives] returns exactly the drives [A:\] to [Z:\] that exist,
    each once, in alphabetical order, so at most 26 of them. *)
Theorem get_all_drives_spec (os_path_exists : string → bool) :
  (∀ drive,
     drive ∈ get_all_drives os_path_exists
     ↔ os_path_exists drive = true
       ∧ ∃ letter, letter ∈ ascii_uppercase ∧ drive = letter +:+ ":\")
  ∧ NoDup (get_all_drives os_path_exists)
  ∧ get_all_drives os_path_exists
      `sublist_of` (drive_of_letter <$> ascii_uppercase)
  ∧ length (get_all_drives os_path_exists) ≤ 26.
Proof.
  unfold get_all_drives. split_and!.
  - intros drive. rewrite list_elem_of_filter, list_elem_of_fmap.
    split; intros [? (letter & ? & ?)]; (split; [done|]);
      exists letter; by split.
  - apply NoDup_filter, all_drives_NoDup.
  - apply sublist_filter.
  - etrans; [apply length_filter|]. reflexivity.
Qed.

(** ** Drive arguments *)

Lemma endswith_app (x suffix : string) : endswith suffix (x +:+ suffix) = true.
Proof.
  unfold endswith. rewrite app_length.
  apply andb_true_iff. split; [apply Nat.leb_le; lia|].
  replace (String.length x + String.length suffix - String.length suffix)
    with (String.length x) by lia.
  rewrite drop_app_length. apply String.eqb_refl.
Qed.

Lemma drop_last_two_colon x :
  PyStr.drop (String.length (x +:+ ":") - 2) (x +:+ ":") ≠ ":\".
Proof.
  induction x as [|a x IH]; [discriminate|].
  rewrite app_cons. simpl String.length.
  rewrite app_length in *. simpl String.length in *.
  destruct x as [|b x].
  - simpl. destruct a as [[] [] [] [] [] [] [] []]; discriminate.
  - replace (S (String.length (String b x) + 1) - 2)
      with (S (String.length (String b x) + 1 - 2))
      by (simpl; lia).
    exact IH.
Qed.

Lemma endswith_colon x : endswith ":\" (x +:+ ":") = false.
Proof.
  unfold endswith. apply andb_false_iff. right.
  apply String.eqb_neq. apply drop_last_two_colon.
Qed.

(** The drive arguments of the command line: every normalized drive ends in
    [:\], a drive that already does is left alone, so normalizing twice
    changes nothing more; but a drive written with its colon and without
    the backslash, as the help text writes them, gets [:\] appended after
    its colon. *)
Theorem normalize_drive_spec (d : string) :
  endswith ":\" (normalize_drive d) = true
  ∧ normalize_drive (normalize_drive d) = normalize_drive d
  ∧ (endswith ":\" d = true → normalize_drive d = d)
  ∧ normalize_drive (d +:+ ":") = d +:+ "::\".
Proof.
  assert (endswith ":\" (normalize_drive d) = true) as H.
  { unfold normalize_drive. destruct (endswith ":\" d) eqn:E; [exact E|].
    apply endswith_app. }
  split_and!.
  - exact H.
  - unfold normalize_drive at 1. by rewrite H.
  - intros E. unfold normalize_drive. by rewrite E.
  - unfold normalize_drive. rewrite endswith_colon.
    by rewrite app_assoc_str.
Qed.

Lemma get_file_category_range_witness :
  "audio" ∈ ["pictures"; "audio"; "video"; "text"]
  ∧ pathlib.suffix (mkPath "" "/" ["music"; "Track.01.FLAC"]) ≠ "".
Proof.
  destruct (get_file_category_range
              (mkPath "" "/" ["music"; "Track.01.FLAC"]) "audio")
    as (H1 & H2 & _).
  - reflexivity.
  - split; [exact H1 | exact H2].
Defined.

(** ** What a successful plan guarantees *)

(** When the planner returns a target in a live pass, the namespace
    directory exists, whatever it added to the filesystem is a directory
    and nothing else changed, the target lies directly in that directory
    and does not exist; and as long as no link is created, planning the
    same file again changes nothing and returns the same target. *)
Theorem planner_postcondition (os : Policy) (category : string)
    (source_file output_dir : Path) (fs fs' : gmap Path node)
    (target_path : Path) :
  create_hybrid_structure os category source_file output_dir false fs
    = (fs', inr target_path) →
  let dir := target_dir_of category source_file output_dir in
  fs ⊆ fs'
  ∧ (∀ p v, fs' !! p = Some v → fs !! p = Some v ∨ v = Directory)
  ∧ is_dir fs' dir = true
  ∧ path_exists fs' target_path = false
  ∧ pathlib.parent target_path = dir
  ∧ create_hybrid_structure os category source_file output_dir false fs'
    = (fs', inr target_path).
Proof.
  intros H dir.
  apply create_hybrid_structure_live in H
    as (Hsub & [(Hmk & [= ->] & Hdir) | (e & _ & [=])]).
  fold dir in Hmk, Hdir. split_and!.
  - exact Hsub.
  - intros p v Hp. by eapply mkdir_parents_new.
  - exact Hdir.
  - apply free_target_free.
  - apply free_target_parent. by apply is_dir_exists.
  - unfold create_hybrid_structure, bind. fold dir.
    destruct (mkdir_parents os dir fs') as [fs2 res] eqn:E.
    destruct (mkdir_parents_contract os _ _ _ _ E) as (_ & _ & Hnoop).
    by destruct (Hnoop Hdir) as [-> ->].
Qed.

Lemma planner_postcondition_witness :
  let os := mkPolicy (fun _ => false) (fun _ => false) in
  let fs : gmap Path node :=
    <[mkPath "" "/" [] := Directory]>
      (<[mkPath "" "/" ["out"] := Directory]> ∅) in
  let source_file := mkPath "" "/" ["data"; "Photos"; "img.jpg"] in
  let output_dir := mkPath "" "/" ["out"] in
  pathlib.parent
    (free_target
       (mkdir_parents os (mkPath "" "/" ["out"; "pictures"; "Photos"]) fs).1
       (mkPath "" "/" ["out"; "pictures"; "Photos"]) source_file)
  = mkPath "" "/" ["out"; "pictures"; "Photos"].
Proof.
  intros os fs source_file output_dir.
  refine (proj1 (proj2 (proj2 (proj2 (proj2
            (planner_postcondition os "pictures" source_file output_dir fs
               (mkdir_parents os
                  (mkPath "" "/" ["out"; "pictures"; "Photos"]) fs).1
               (free_target
                  (mkdir_parents os
                     (mkPath "" "/" ["out"; "pictures"; "Photos"]) fs).1
                  (mkPath "" "/" ["out"; "pictures"; "Photos"]) source_file)
               _)))))).
  unfold create_hybrid_structure, bind.
  change (target_dir_of "pictures" source_file output_dir)
    with (mkPath "" "/" ["out"; "pictures"; "Photos"]).
  assert ((mkdir_parents os (mkPath "" "/" ["out"; "pictures"; "Photos"])
             fs).2 = inr ()) as E by (vm_compute; reflexivity).
  destruct (mkdir_parents os _ fs) as [fs1 res]. simpl in E. by subst.
Defined.
